(** * Digital Culture Scan dashboard: a shallow embedding of
      [app_streamlit_dcs.py] and the properties of its pipeline

    The script is linear: load the sheet, derive [PromedioGeneral], filter by
    Área and Nivel, aggregate, render.  Each step below is a Rocq function
    named after the Python name it embeds.

    Conventions of the embedding.
    - A Python [str] is the list of its code points ([str], a [list N]);
      literals are written as in the source and decoded from UTF-8 by [u].
    - A numeric cell is a [num]: [None] is pandas' missing value (NaN),
      [Some q] a number.  float64 arithmetic is read as exact arithmetic on
      rationals ([Q], compared with [==]): rounding is not modelled.
    - A categorical cell is an [option str], [None] again the missing value.
    - What the script sends to the page is a trace of [Event]s, in order. *)

From Stdlib Require Import ZArith NArith QArith List Bool String Ascii Lia SpecFloat.
From Stdlib Require Import Sorting.Sorted Lqa.
From stdpp Require Import base list.
Import ListNotations.

#[local] Open Scope Z_scope.

(** ** Python strings *)

Module PyStr.

(** A [str] value: its code points. *)
Definition str := list N.

(** Decoding of a UTF-8 byte sequence (well-formed, as a source literal is). *)
Fixpoint utf8_decode (bs : list N) : str :=
  match bs with
  | [] => []
  | b0 :: r0 =>
    if (b0 <? 128)%N then b0 :: utf8_decode r0
    else match r0 with
    | [] => []
    | b1 :: r1 =>
      if (b0 <? 224)%N then ((b0 mod 32) * 64 + b1 mod 64)%N :: utf8_decode r1
      else match r1 with
      | [] => []
      | b2 :: r2 =>
        if (b0 <? 240)%N
        then ((b0 mod 16) * 4096 + (b1 mod 64) * 64 + b2 mod 64)%N :: utf8_decode r2
        else match r2 with
        | [] => []
        | b3 :: r3 =>
          ((b0 mod 8) * 262144 + (b1 mod 64) * 4096 + (b2 mod 64) * 64 + b3 mod 64)%N
            :: utf8_decode r3
        end
      end
    end
  end.

(** A literal of the source, as the [str] Python reads from it. *)
Definition u (s : string) : str :=
  utf8_decode (List.map N_of_ascii (list_ascii_of_string s)).

(** [a == b] on [str]: the same code points. *)
Fixpoint str_eqb (a b : str) : bool :=
  match a, b with
  | [], [] => true
  | x :: a', y :: b' => (x =? y)%N && str_eqb a' b'
  | _, _ => false
  end.

(** [a < b] on [str]: lexicographic on code points (what [sorted] uses). *)
Fixpoint str_ltb (a b : str) : bool :=
  match a, b with
  | _, [] => false
  | [], _ :: _ => true
  | x :: a', y :: b' => (x <? y)%N || ((x =? y)%N && str_ltb a' b')
  end.

(** [ch.isspace()]: CPython's [_PyUnicode_IsWhitespace] table. *)
Definition isspace (c : N) : bool :=
  ((9 <=? c) && (c <=? 13) || (28 <=? c) && (c <=? 32)
   || (c =? 133) || (c =? 160) || (c =? 5760)
   || (8192 <=? c) && (c <=? 8202)
   || (c =? 8232) || (c =? 8233) || (c =? 8239) || (c =? 8287) || (c =? 12288))%N.

(** [s.lstrip()]. *)
Fixpoint lstrip (s : str) : str :=
  match s with
  | [] => []
  | c :: s' => if isspace c then lstrip s' else s
  end.

(** [s.rstrip()]. *)
Definition rstrip (s : str) : str := rev (lstrip (rev s)).

(** [s.strip()]: whitespace removed at both ends. *)
Definition strip (s : str) : str := rstrip (lstrip s).

(** [s.replace(" ", "")]: every U+0020 removed. *)
Fixpoint replace_space (s : str) : str :=
  match s with
  | [] => []
  | c :: s' => if (c =? 32)%N then replace_space s' else c :: replace_space s'
  end.

End PyStr.
Import PyStr.

Arguments u s%_string.

(** ** Tabular data *)

(** A numeric cell: [None] is the missing value (NaN). *)
Definition num := option Q.

(** One row of the sheet: the seven columns the script reads, and the column
    the script adds.  (A sheet lacking one of the seven makes line 49 raise
    KeyError outside the [try]; such sheets are outside this model.) *)
Record Response := mkResponse {
  Area : option str;
  Nivel : option str;
  Agilidad : num;
  Empoderamiento : num;
  MentalidadDatos : num;
  CorajeInnovar : num;
  eNPS : num;
  PromedioGeneral : num
}.

(** A frame: its header labels and its rows, in sheet order. *)
Record DataFrame := mkDataFrame {
  columns : list str;
  rows : list Response
}.

(** [len(df)]. *)
Definition len (df : DataFrame) : nat := length (rows df).

(** The pandas operations the script calls. *)
Module Pandas.

(** [series == v] on a numeric series: NaN compares unequal to everything. *)
Definition eq_num (series : list num) (v : Q) : list bool :=
  List.map (fun c => match c with Some q => Qeq_bool q v | None => false end) series.

(** [series == v] on a categorical series. *)
Definition eq_str (series : list (option str)) (v : str) : list bool :=
  List.map (fun c => match c with Some s => str_eqb s v | None => false end) series.

(** [series.notna()]. *)
Definition notna {A} (series : list (option A)) : list bool :=
  List.map (fun c => match c with Some _ => true | None => false end) series.

(** [mask.sum()]: the number of [True] entries. *)
Fixpoint bsum (mask : list bool) : Z :=
  match mask with
  | [] => 0
  | b :: mask' => (if b then 1 else 0) + bsum mask'
  end.

(** [series.dropna()]. *)
Fixpoint dropna {A} (series : list (option A)) : list A :=
  match series with
  | [] => []
  | Some x :: series' => x :: dropna series'
  | None :: series' => dropna series'
  end.

(** Sum of a list of numbers. *)
Definition qsum (xs : list Q) : Q := fold_right Qplus 0%Q xs.

(** [series.mean()] with the default [skipna=True]: the mean of the
    non-missing entries, NaN when there is none. *)
Definition mean (series : list num) : num :=
  let xs := dropna series in
  match xs with
  | [] => None
  | _ :: _ => Some (qsum xs / inject_Z (Z.of_nat (length xs)))%Q
  end.

(** [frame[mask]]: the entries at which the mask holds, in order. *)
Fixpoint boolean_index {A} (l : list A) (mask : list bool) : list A :=
  match l, mask with
  | x :: l', b :: mask' =>
      if b then x :: boolean_index l' mask' else boolean_index l' mask'
  | _, _ => []
  end.

(** [series.unique()]: the distinct values, in order of first appearance. *)
Fixpoint unique_from (seen : list str) (l : list str) : list str :=
  match l with
  | [] => []
  | x :: l' =>
      if existsb (str_eqb x) seen then unique_from seen l'
      else x :: unique_from (x :: seen) l'
  end.

Definition unique (l : list str) : list str := unique_from [] l.

(** [sorted(l)] on strings: ascending by [<]. *)
Fixpoint insert_sorted (x : str) (l : list str) : list str :=
  match l with
  | [] => [x]
  | y :: l' => if str_ltb y x then y :: insert_sorted x l' else x :: l
  end.

Definition sorted (l : list str) : list str := fold_right insert_sorted [] l.

End Pandas.
Import Pandas.

(** ** Calculated fields *)

(** [compute_enps(series)], lines 40-47. *)
Definition compute_enps (series : list num) : Q :=
  let promotores := bsum (eq_num series 100) in
  let detractores := bsum (eq_num series (-100)) in
  let total := bsum (notna series) in
  if total =? 0 then 0%Q
  else (inject_Z (promotores - detractores) / inject_Z total * 100)%Q.

(** A numeric column: its label and the cell it names in a row. *)
Record Column := mkColumn {
  label : str;
  cell : Response -> num
}.

(** [radar_dims], line 75; the same four labels are written out at line 49. *)
Definition radar_dims : list Column :=
  [ mkColumn (u "Agilidad") Agilidad;
    mkColumn (u "Empoderamiento") Empoderamiento;
    mkColumn (u "MentalidadDatos") MentalidadDatos;
    mkColumn (u "CorajeInnovar") CorajeInnovar ].

(** The entries of a row under the given columns. *)
Definition row_values (cols : list Column) (r : Response) : list num :=
  List.map (fun col => cell col r) cols.

Definition set_PromedioGeneral (v : num) (r : Response) : Response :=
  {| Area := Area r; Nivel := Nivel r;
     Agilidad := Agilidad r; Empoderamiento := Empoderamiento r;
     MentalidadDatos := MentalidadDatos r; CorajeInnovar := CorajeInnovar r;
     eNPS := eNPS r; PromedioGeneral := v |}.

(** The row-wise step of line 49: the mean of the row over the four
    dimension columns, stored under [PromedioGeneral]. *)
Definition with_PromedioGeneral (r : Response) : Response :=
  set_PromedioGeneral (mean (row_values radar_dims r)) r.

(** Line 49: [df["PromedioGeneral"] = df[[...]].mean(axis=1)].  The row-wise
    mean skips missing cells; the assignment adds the column, or overwrites
    one of that name. *)
Definition add_PromedioGeneral (df : DataFrame) : DataFrame :=
  {| columns :=
       if existsb (str_eqb (u "PromedioGeneral")) (columns df) then columns df
       else columns df ++ [u "PromedioGeneral"];
     rows := List.map with_PromedioGeneral (rows df) |}.

(** ** Filters *)

(** [df[mask]] on a frame: the rows at which the mask holds; the header stays. *)
Definition getitem_mask (df : DataFrame) (mask : list bool) : DataFrame :=
  {| columns := columns df; rows := boolean_index (rows df) mask |}.

(** Lines 58-62: the filtered view [df_f] for the two selections. *)
Definition df_f (df : DataFrame) (area_sel nivel_sel : str) : DataFrame :=
  let df_f := df in
  let df_f :=
    if negb (str_eqb area_sel (u "(Todas)"))
    then getitem_mask df_f (eq_str (List.map Area (rows df_f)) area_sel)
    else df_f in
  let df_f :=
    if negb (str_eqb nivel_sel (u "(Todos)"))
    then getitem_mask df_f (eq_str (List.map Nivel (rows df_f)) nivel_sel)
    else df_f in
  df_f.

(** Lines 52-53: the options of the two select boxes. *)
Definition areas (df : DataFrame) : list str :=
  u "(Todas)" :: sorted (unique (dropna (List.map Area (rows df)))).

Definition niveles (df : DataFrame) : list str :=
  u "(Todos)" :: sorted (unique (dropna (List.map Nivel (rows df)))).

(** ** Aggregations *)

(** Truth value of a length, as in [if len(df_f)]. *)
Definition truthy (n : nat) : bool := negb (Nat.eqb n 0).

(** Line 65. *)
Definition enps_global (df_f : DataFrame) : Q :=
  if truthy (len df_f) then compute_enps (List.map eNPS (rows df_f)) else 0%Q.

(** Line 76: the radar values, one per dimension. *)
Definition vals (df_f : DataFrame) : list num :=
  List.map (fun col =>
              if truthy (len df_f) then mean (List.map (cell col) (rows df_f))
              else Some 0%Q)
           radar_dims.

(** [df_f.groupby("Área")[radar_dims].mean().reset_index()]: one row per
    distinct non-missing Área, keys ascending, with the mean of each
    dimension over the rows of that key. *)
Definition groupby_Area_mean (df_f : DataFrame) : list (str * list num) :=
  List.map
    (fun key =>
       let group := boolean_index (rows df_f) (eq_str (List.map Area (rows df_f)) key) in
       (key, List.map (fun col => mean (List.map (cell col) group)) radar_dims))
    (sorted (unique (dropna (List.map Area (rows df_f))))).

(** Line 94: the frame behind the bar chart; when the view has no row, an
    empty frame with the five columns. *)
Definition bars_df (df_f : DataFrame) : list (str * list num) :=
  if truthy (len df_f) then groupby_Area_mean df_f else [].

(** Line 108: the frame behind the heatmap. *)
Definition hm_df (df_f : DataFrame) : list (str * list num) :=
  groupby_Area_mean df_f.

(** [frame.melt(id_vars="Área", var_name="Dimensión", value_name="Promedio")]:
    for each dimension in turn, one (Área, Dimensión, Promedio) triple per row. *)
Definition melt (frame : list (str * list num)) : list (str * str * num) :=
  List.flat_map
    (fun '(i, col) =>
       List.map (fun '(key, means) => (key, label col, List.nth i means None)) frame)
    (List.combine (List.seq 0 (length radar_dims)) radar_dims).

(** ** What the page shows *)

(** Where the sheet is read from: a path, or the bytes of an upload. *)
Inductive Source :=
| Path (p : str)
| Upload (bytes : list N).

(** An exception value: its message. *)
Definition Exception := str.

(** A formatted readout: a literal, [f"{v:.<d>f}"] or [f"{n}"]. *)
Inductive Text :=
| Literal (s : str)
| FormatFixed (decimals : nat) (v : num)
| FormatInt (n : nat).

(** One row of the static action matrix. *)
Record Initiative := mkInitiative {
  Iniciativa : str;
  Impacto : Z;
  Urgencia : Z;
  Categoria : str
}.

(** A Plotly figure, by the data it is built from (titles, ranges and colour
    scales are constants of the script and are left out). *)
Inductive Figure :=
| Scatterpolar (r : list num) (theta : list str)
| Bar (data : list (str * str * num))
| DensityHeatmap (data : list (str * str * num))
| Scatter (data : list Initiative).

(** The calls that reach outside the script, in the order they happen:
    the page configuration, reading the sheet, and the Streamlit elements
    (the column containers, which only place elements, are left out). *)
Inductive Event :=
| set_page_config (page_title : str)
| st_title (s : str)
| st_caption (s : str)
| sidebar_header (s : str)
| file_uploader (label : str)
| pd_read_excel (file : Source) (sheet_name : str)
| st_error (s : str)
| selectbox (label : str) (options : list str) (index : nat)
| metric (label : str) (value : Text)
| st_markdown (s : str)
| plotly_chart (fig : Figure)
| st_info (s : str)
| st_expander (label : str)
| st_dataframe (df : DataFrame).

(** How a piece of script ends: it returns, an exception escapes it, or
    [st.stop()] ended the run. *)
Inductive Outcome (A : Type) :=
| Returned (a : A)
| Raised (e : Exception)
| Stopped.
Arguments Returned {A} a.
Arguments Raised {A} e.
Arguments Stopped {A}.

(** A piece of script: the events it caused and how it ended. *)
Definition Run (A : Type) : Type := list Event * Outcome A.

#[export] Instance Run_ret : MRet Run := fun A a => ([], Returned a).

#[export] Instance Run_bind : MBind Run := fun A B f m =>
  match m with
  | (t, Returned a) => let '(t', o) := f a in (t ++ t', o)
  | (t, Raised e) => (t, Raised e)
  | (t, Stopped) => (t, Stopped)
  end.

Definition emit (e : Event) : Run unit := ([e], Returned tt).
Definition raise {A} (e : Exception) : Run A := ([], Raised e).
Definition st_stop {A} : Run A := ([], Stopped).

(** [try: body  except Exception as e: handler(e)]. *)
Definition try_except {A} (body : Run A) (handler : Exception -> Run A) : Run A :=
  match body with
  | (t, Raised e) => let '(t', o) := handler e in (t ++ t', o)
  | _ => body
  end.

(** ** Charts *)

(** Lines 77-85: the radar polygon, closed by repeating its first point. *)
Definition radar_fig (df_f : DataFrame) : Figure :=
  let Valor := vals df_f in
  let Dimension := List.map label radar_dims in
  Scatterpolar (Valor ++ [List.hd None Valor]) (Dimension ++ [List.hd [] Dimension]).

(** Lines 95-99. *)
Definition bars_fig (df_f : DataFrame) : Figure := Bar (melt (bars_df df_f)).

(** Lines 120-125. *)
Definition rag_data : list Initiative :=
  [ mkInitiative (u "Daily Learning Nugget") 5 5 (u "Quick Win");
    mkInitiative (u "Célula Ágil Piloto") 4 3 (u "180 días");
    mkInitiative (u "Academia de Datos") 5 2 (u "365 días");
    mkInitiative (u "Incentivos Digitales") 4 4 (u "90-365 días");
    mkInitiative (u "Gobernanza DCS") 5 2 (u "Gobernanza") ].

Definition rag_fig : Figure := Scatter rag_data.

(** The text shown in place of the heatmap, line 117. *)
Definition heatmap_placeholder : str :=
  u "No hay datos para construir el heatmap con los filtros aplicados.".

(** Lines 108-117: the heatmap, or the placeholder when [hm_df] has no row. *)
Definition heatmap (df_f : DataFrame) : Event :=
  match hm_df df_f with
  | [] => st_info heatmap_placeholder
  | _ :: _ => plotly_chart (DensityHeatmap (melt (hm_df df_f)))
  end.

(** ** Loading *)

(** Line 27, for one header [c]. *)
Definition normalize_column (c : str) : str :=
  if negb (str_eqb c (u "Área")) && negb (str_eqb c (u "Nivel"))
  then replace_space (strip c)
  else c.

Definition default_path : str := u "Dataset_DCS_ReidCo.xlsx".

(** The text shown when the sheet cannot be read, line 36. *)
Definition load_error_message : str :=
  u "No se pudo leer el dataset. Sube el archivo Dataset_DCS_ReidCo.xlsx en la barra lateral.".

Section Script.

(** [pd.read_excel(file, sheet_name=...)]: the frame of that sheet, or the
    exception it raises (no such file, not a workbook, no such sheet). *)
Variable read_excel : Source -> str -> Exception + DataFrame.

(** Lines 24-28. *)
Definition load_data (file : Source) : Run DataFrame :=
  emit (pd_read_excel file (u "Raw"));;
  match read_excel file (u "Raw") with
  | inl e => raise e
  | inr raw =>
      mret {| columns := List.map normalize_column (columns raw); rows := rows raw |}
  end.

(** Lines 30-37: the guarded load.  [uploaded] is the uploader's value
    ([None] when nothing was uploaded). *)
Definition load (uploaded : option (list N)) : Run DataFrame :=
  try_except
    (match uploaded with
     | Some f => load_data (Upload f)
     | None => load_data (Path default_path)
     end)
    (fun e => emit (st_error load_error_message);; st_stop).

(** Everything below the load, lines 49-135, on the loaded frame. *)
Definition render (df : DataFrame) (area_sel nivel_sel : str) : Run unit :=
  let df := add_PromedioGeneral df in
  emit (selectbox (u "Área") (areas df) 0);;
  emit (selectbox (u "Nivel") (niveles df) 0);;
  let view := df_f df area_sel nivel_sel in
  emit (metric (u "eNPS Global") (FormatFixed 0 (Some (enps_global view))));;
  emit (metric (u "Promedio General")
          (if truthy (len view)
           then FormatFixed 2 (mean (List.map PromedioGeneral (rows view)))
           else Literal (u "0.00")));;
  emit (metric (u "N° Respuestas") (FormatInt (len view)));;
  emit (st_markdown (u "---"));;
  emit (plotly_chart (radar_fig view));;
  emit (plotly_chart (bars_fig view));;
  emit (heatmap view);;
  emit (plotly_chart rag_fig);;
  emit (st_expander (u "Ver datos filtrados (previa)"));;
  emit (st_dataframe view);;
  emit (st_caption
          (u "© 2025 Reid & Compañía S. A. · Dashboard DCS · Fuente: Comité de Transformación Digital")).

(** One run of the script, for the uploader's value and the two selections. *)
Definition script (uploaded : option (list N)) (area_sel nivel_sel : str) : Run unit :=
  emit (set_page_config (u "DCS – Reid & Compañía"));;
  emit (st_title (u "Digital Culture Scan (DCS) – Reid & Compañía S. A."));;
  emit (st_caption
          (u "Presentado al Comité de Transformación Digital · Fuente: Comité TD Reid & Co., 2025"));;
  emit (sidebar_header (u "Fuente de datos"));;
  emit (file_uploader (u "Sube el dataset Excel (Dataset_DCS_ReidCo.xlsx)"));;
  df ← load uploaded;
  render df area_sel nivel_sel.

End Script.

(** * Notions the properties are stated with *)

(** ** Counts of a series *)

(** The spec's counts, in its words: the number of entries of a series that
    satisfy a test. *)
Definition count_entries (test : num -> bool) (series : list num) : Z :=
  Z.of_nat (length (List.filter test series)).

Definition equals (v : Q) (c : num) : bool :=
  match c with Some q => Qeq_bool q v | None => false end.

Definition not_missing (c : num) : bool :=
  match c with Some _ => true | None => false end.

(** A non-missing entry that is neither 100 nor -100 (a passive, or a value
    outside the documented domain). *)
Definition other_value (c : num) : bool :=
  not_missing c && negb (equals 100 c) && negb (equals (-100) c).

(** ** float64 *)

(** IEEE binary64 values and operations (the Standard Library's executable
    model), to run the spec's examples under the rounding the script has. *)
Module Binary64.

Definition of_Z (z : Z) : spec_float := binary_normalize 53 1024 z 0 false.
Definition add : spec_float -> spec_float -> spec_float := SFadd 53 1024.
Definition div : spec_float -> spec_float -> spec_float := SFdiv 53 1024.
Definition mul : spec_float -> spec_float -> spec_float := SFmul 53 1024.

(** Line 47 on the three counts: [(promotores - detractores) / total * 100]. *)
Definition score (promotores detractores total : Z) : spec_float :=
  mul (div (of_Z (promotores - detractores)) (of_Z total)) (of_Z 100).

End Binary64.

(** ** Means *)

(** [m] is the mean of the numbers [present]: missing when there is none,
    otherwise the number whose product with their count is their sum. *)
Definition is_mean_of (m : num) (present : list Q) : Prop :=
  match m with
  | None => present = []
  | Some q =>
      present <> [] /\ (q * inject_Z (Z.of_nat (length present)) == qsum present)%Q
  end.

(** The two rows carry the same answers. *)
Definition same_answers (r r' : Response) : Prop :=
  Area r' = Area r /\ Nivel r' = Nivel r /\
  Agilidad r' = Agilidad r /\ Empoderamiento r' = Empoderamiento r /\
  MentalidadDatos r' = MentalidadDatos r /\ CorajeInnovar r' = CorajeInnovar r /\
  eNPS r' = eNPS r.

(** ** Traces *)

(** The source a run reads: the upload when there is one, else the default. *)
Definition chosen_source (uploaded : option (list N)) : Source :=
  match uploaded with
  | Some f => Upload f
  | None => Path default_path
  end.

(** The sources a trace shows to have been read, in order. *)
Definition sources_read (trace : list Event) : list Source :=
  List.flat_map
    (fun ev => match ev with pd_read_excel file _ => [file] | _ => [] end) trace.

(** The placeholders a trace shows. *)
Definition placeholders (trace : list Event) : list Event :=
  List.filter (fun ev => match ev with st_info _ => true | _ => false end) trace.

(** What every run does before it reads the sheet, lines 14-22. *)
Definition preamble : list Event :=
  [ set_page_config (u "DCS – Reid & Compañía");
    st_title (u "Digital Culture Scan (DCS) – Reid & Compañía S. A.");
    st_caption
      (u "Presentado al Comité de Transformación Digital · Fuente: Comité TD Reid & Co., 2025");
    sidebar_header (u "Fuente de datos");
    file_uploader (u "Sube el dataset Excel (Dataset_DCS_ReidCo.xlsx)") ].

(** The frame [load_data] returns for the sheet [raw]. *)
Definition normalized (raw : DataFrame) : DataFrame :=
  {| columns := List.map normalize_column (columns raw); rows := rows raw |}.

(** ** Sample data *)

(** The dataset of the end-to-end scenario: three rows, Área A, A, B. *)
Definition scenario : DataFrame :=
  {| columns :=
       [u "Área"; u "Nivel"; u " Agilidad"; u "Empoderamiento";
        u "Mentalidad Datos"; u "Coraje Innovar"; u "eNPS"];
     rows :=
       [ mkResponse (Some (u "A")) (Some (u "Jefe"))
           (Some 4) (Some 3) (Some 3) (Some 3) (Some 100) None;
         mkResponse (Some (u "A")) (Some (u "Analista"))
           (Some 2) (Some 3) (Some 3) (Some 3) (Some (-100)) None;
         mkResponse (Some (u "B")) (Some (u "Jefe"))
           (Some 5) (Some 3) (Some 3) (Some 3) (Some 0) None ]%Q |}.

(** A reader that finds the scenario's sheet wherever it looks, and one that
    finds no file. *)
Definition scenario_reader (file : Source) (sheet_name : str) : Exception + DataFrame :=
  inr scenario.

Definition failing_reader (file : Source) (sheet_name : str) : Exception + DataFrame :=
  inl (u "FileNotFoundError").

(** A view of two rows in which nobody answered CorajeInnovar. *)
Definition unanswered_view : DataFrame :=
  {| columns :=
       [u "Área"; u "Nivel"; u "Agilidad"; u "Empoderamiento"; u "MentalidadDatos";
        u "CorajeInnovar"; u "eNPS"; u "PromedioGeneral"];
     rows :=
       [ mkResponse (Some (u "A")) (Some (u "Jefe"))
           (Some 4) (Some 3) (Some 5) None (Some 100) (Some 4);
         mkResponse (Some (u "B")) (Some (u "Jefe"))
           (Some 2) (Some 3) (Some 1) None (Some 0) (Some 2) ]%Q |}.

(** ** Ranges of cells *)



(** ** Order of strings *)

(** [a < b] and [a <= b] on [str], as Python compares them. *)
Definition str_lt (a b : str) : Prop := str_ltb a b = true.
Definition str_le (a b : str) : Prop := str_ltb b a = false.

(** * Properties *)

(** ** The eNPS score *)

Lemma bsum_map_count {A} (test : A -> bool) (l : list A) :
  bsum (List.map test l) = Z.of_nat (length (List.filter test l)).
Proof.
  induction l as [|x l IH]; simpl; [reflexivity|].
  rewrite IH. destruct (test x); simpl length; lia.
Qed.

Lemma promotores_count series :
  bsum (eq_num series 100) = count_entries (equals 100) series.
Proof. apply bsum_map_count. Qed.

Lemma detractores_count series :
  bsum (eq_num series (-100)) = count_entries (equals (-100)) series.
Proof. apply bsum_map_count. Qed.

Lemma total_count series :
  bsum (notna series) = count_entries not_missing series.
Proof. apply (bsum_map_count not_missing). Qed.

Lemma count_entries_nonneg test series : 0 <= count_entries test series.
Proof. unfold count_entries. lia. Qed.

(** The non-missing entries split into promoters, detractors and the rest. *)
Lemma count_partition series :
  count_entries not_missing series =
  count_entries (equals 100) series + count_entries (equals (-100)) series
  + count_entries other_value series.
Proof.
  unfold count_entries.
  induction series as [|c series IH]; simpl; [reflexivity|].
  assert (Hcases :
    (not_missing c = false /\ equals 100 c = false /\ equals (-100) c = false
       /\ other_value c = false) \/
    (not_missing c = true /\ equals 100 c = true /\ equals (-100) c = false
       /\ other_value c = false) \/
    (not_missing c = true /\ equals 100 c = false /\ equals (-100) c = true
       /\ other_value c = false) \/
    (not_missing c = true /\ equals 100 c = false /\ equals (-100) c = false
       /\ other_value c = true)).
  { destruct c as [q|]; [|left; repeat split; reflexivity].
    unfold other_value; simpl.
    destruct (Qeq_bool q 100) eqn:E1, (Qeq_bool q (-100)) eqn:E2; simpl; auto 10.
    apply Qeq_bool_iff in E1. apply Qeq_bool_iff in E2.
    rewrite E1 in E2. discriminate E2. }
  destruct Hcases as [H|[H|[H|H]]]; destruct H as (-> & -> & -> & ->);
    simpl length; lia.
Qed.

(** The quotient of the score, for counts that the partition allows. *)
Lemma score_range (p d t : Z) :
  0 <= p -> 0 <= d -> p + d <= t -> 0 < t ->
  (-100 <= inject_Z (p - d) / inject_Z t * 100 <= 100)%Q.
Proof.
  intros Hp Hd Hpd Ht.
  destruct t as [|t|t]; try lia.
  unfold Qle, Qdiv, Qmult, Qinv, inject_Z; simpl.
  split; nia.
Qed.

(** C1. With P the number of entries equal to 100, D the number equal to -100
    and T the number of non-missing entries (passives included), the score is
    (P - D) / T * 100 when T > 0 and 0 when T = 0; so it is 0 on an
    all-missing series, and 25 on [100, 100, -100, 0, missing]. *)
Theorem compute_enps_formula (series : list num) :
  let P := count_entries (equals 100) series in
  let D := count_entries (equals (-100)) series in
  let T := count_entries not_missing series in
  (0 < T -> (compute_enps series == inject_Z (P - D) / inject_Z T * 100)%Q) /\
  (T = 0 -> (compute_enps series == 0)%Q) /\
  (Forall (fun c => c = None) series -> (compute_enps series == 0)%Q) /\
  (compute_enps [Some 100; Some 100; Some (-100); Some 0; None] == 25)%Q.
Proof.
  cbv zeta. unfold compute_enps.
  rewrite promotores_count, detractores_count, total_count.
  split; [|split; [|split]].
  - intros HT. destruct (Z.eqb_spec (count_entries not_missing series) 0); [lia|].
    reflexivity.
  - intros ->. reflexivity.
  - intros Hall.
    assert (count_entries not_missing series = 0) as ->; [|reflexivity].
    unfold count_entries. induction Hall as [|c l -> _ IH]; simpl; [reflexivity|].
    exact IH.
  - reflexivity.
Qed.

(** C1 at the series of the example and at an all-missing one. *)
Lemma compute_enps_formula_witness :
  (compute_enps [Some 100; Some 100; Some (-100); Some 0; None]
     == inject_Z (2 - 1) / inject_Z 4 * 100)%Q /\
  (compute_enps [None; None; None] == 0)%Q.
Proof.
  split.
  - exact (proj1 (compute_enps_formula [Some 100; Some 100; Some (-100); Some 0; None]%Q)
             eq_refl).
  - exact (proj1 (proj2 (compute_enps_formula [None; None; None])) eq_refl).
Defined.

(** The example of C1 in float64: the score is exactly 25.0. *)
Example compute_enps_example_binary64 :
  let series := [Some 100; Some 100; Some (-100); Some 0; None]%Q in
  Binary64.score (bsum (eq_num series 100)) (bsum (eq_num series (-100)))
                 (bsum (notna series))
  = Binary64.of_Z 25.
Proof. reflexivity. Qed.

(** C9. The score lies in [-100, 100] for every series: a non-missing entry
    other than 100 and -100 (50, say) is counted in the total only, so
    promoters plus detractors never exceed the total. *)
Theorem compute_enps_range (series : list num) :
  let promotores := bsum (eq_num series 100) in
  let detractores := bsum (eq_num series (-100)) in
  let total := bsum (notna series) in
  total = promotores + detractores + count_entries other_value series /\
  promotores + detractores <= total /\
  (-100 <= compute_enps series <= 100)%Q /\
  (compute_enps [Some 100; Some 50] == 50)%Q.
Proof.
  cbv zeta.
  pose proof (count_partition series) as Hpart.
  pose proof (count_entries_nonneg (equals 100) series) as HP.
  pose proof (count_entries_nonneg (equals (-100)) series) as HD.
  pose proof (count_entries_nonneg other_value series) as HO.
  unfold compute_enps.
  rewrite promotores_count, detractores_count, total_count.
  split; [exact Hpart|]. split; [lia|]. split; [|reflexivity].
  destruct (Z.eqb_spec (count_entries not_missing series) 0) as [_|HT].
  - split; discriminate.
  - apply score_range; lia.
Qed.

(** ** The derived column *)

Lemma mean_is_mean (series : list num) : is_mean_of (mean series) (dropna series).
Proof.
  unfold mean, is_mean_of.
  destruct (dropna series) as [|x xs] eqn:E; [reflexivity|].
  split; [discriminate|].
  set (n := inject_Z (Z.of_nat (length (x :: xs)))).
  assert (Hn : ~ (n == 0)%Q).
  { unfold n, Qeq, inject_Z; simpl. lia. }
  field. exact Hn.
Qed.

(** A mean over no number at all is missing, never 0. *)
Lemma is_mean_of_nil (m : num) : is_mean_of m [] -> m = None.
Proof. destruct m as [q|]; simpl; [intros [H _]; congruence | reflexivity]. Qed.

(** C2. Every row of the frame gets, as [PromedioGeneral], the mean of its
    non-missing values among Agilidad, Empoderamiento, MentalidadDatos and
    CorajeInnovar (missing ones leave both the sum and the count), its
    answers unchanged; a row with the four missing gets a missing value, not
    0; dimensions [5, 3, missing, 1] give 3. *)
Theorem PromedioGeneral_row_mean (df : DataFrame) :
  Forall2
    (fun r r' =>
       same_answers r r' /\
       is_mean_of (PromedioGeneral r')
         (dropna [Agilidad r; Empoderamiento r; MentalidadDatos r; CorajeInnovar r]))
    (rows df) (rows (add_PromedioGeneral df)) /\
  (forall a n e pg,
     PromedioGeneral (with_PromedioGeneral (mkResponse a n None None None None e pg))
     = None) /\
  (forall a n e pg,
     exists m,
       PromedioGeneral
         (with_PromedioGeneral
            (mkResponse a n (Some 5%Q) (Some 3%Q) None (Some 1%Q) e pg)) = Some m /\
       (m == 3)%Q /\ ~ (m == (5 + 3 + 0 + 1) / 4)%Q).
Proof.
  split; [|split].
  - unfold add_PromedioGeneral; simpl.
    induction (rows df) as [|r l IH]; simpl; constructor; [|exact IH].
    split; [repeat split|].
    exact (mean_is_mean (row_values radar_dims r)).
  - reflexivity.
  - intros a n e pg. exists (9 # 3)%Q. repeat split. discriminate.
Qed.

(** The example of C2 in float64: (5.0 + 3.0 + 1.0) / 3 is exactly 3.0. *)
Example PromedioGeneral_example_binary64 :
  Binary64.div
    (Binary64.add (Binary64.add (Binary64.of_Z 5) (Binary64.of_Z 3)) (Binary64.of_Z 1))
    (Binary64.of_Z 3)
  = Binary64.of_Z 3.
Proof. reflexivity. Qed.

(** ** Header normalization *)

Lemma str_eqb_eq (a b : str) : str_eqb a b = true <-> a = b.
Proof.
  revert b. induction a as [|x a IH]; intros [|y b]; simpl;
    try (split; [discriminate | congruence]); [tauto|].
  rewrite andb_true_iff, N.eqb_eq, IH. split; [intros [-> ->]; reflexivity|].
  intros [= -> ->]. tauto.
Qed.

(** The whitespace table at a few code points. *)
Example isspace_table :
  List.map isspace [9; 13; 14; 27; 28; 32; 33; 65; 133; 160; 8192; 8202; 8203; 12288]%N
  = [true; true; false; false; true; true; false; false; true; true; true; true;
     false; true].
Proof. reflexivity. Qed.

(** [lstrip] drops a run of whitespace and stops at the first other character. *)
Lemma lstrip_prefix (s : str) :
  exists w, s = w ++ lstrip s /\ forallb isspace w = true.
Proof.
  induction s as [|c s (w & Hs & Hw)]; [exists []; split; reflexivity|].
  simpl. destruct (isspace c) eqn:Hc.
  - exists (c :: w). simpl. rewrite Hc, Hw. split; [congruence | reflexivity].
  - exists []. split; reflexivity.
Qed.

Lemma lstrip_head (s : str) (c : N) : head (lstrip s) = Some c -> isspace c = false.
Proof.
  induction s as [|x s IH]; simpl; [discriminate|].
  destruct (isspace x) eqn:Hx; [exact IH|].
  simpl. intros [= <-]. exact Hx.
Qed.

Lemma last_rev_head {A} (l : list A) : last (rev l) = head l.
Proof. destruct l as [|x l]; simpl; [reflexivity|]. apply last_snoc. Qed.

Lemma forallb_rev {A} (f : A -> bool) (l : list A) :
  forallb f (rev l) = forallb f l.
Proof.
  induction l as [|x l IH]; simpl; [reflexivity|].
  rewrite forallb_app, IH. simpl. rewrite andb_true_r. apply andb_comm.
Qed.

(** [rstrip] does the same from the right. *)
Lemma rstrip_suffix (s : str) :
  exists w, s = rstrip s ++ w /\ forallb isspace w = true.
Proof.
  unfold rstrip. destruct (lstrip_prefix (rev s)) as (w & Hs & Hw).
  exists (rev w). rewrite forallb_rev. split; [|exact Hw].
  rewrite <- rev_app_distr, <- Hs. symmetry. apply rev_involutive.
Qed.

Lemma rstrip_last (s : str) (c : N) : last (rstrip s) = Some c -> isspace c = false.
Proof. unfold rstrip. rewrite last_rev_head. apply lstrip_head. Qed.

Lemma rstrip_head (s : str) (c : N) :
  head (rstrip s) = Some c -> head s = Some c.
Proof.
  destruct (rstrip_suffix s) as (w & Hs & _).
  destruct (rstrip s) as [|x t]; [discriminate|].
  rewrite Hs. trivial.
Qed.

(** [strip] removes whitespace at the two ends and nothing else; what is
    left neither starts nor ends with whitespace. *)
Lemma strip_spec (s : str) :
  (exists w1 w2,
      s = w1 ++ strip s ++ w2 /\
      forallb isspace w1 = true /\ forallb isspace w2 = true) /\
  (forall c, head (strip s) = Some c -> isspace c = false) /\
  (forall c, last (strip s) = Some c -> isspace c = false).
Proof.
  unfold strip. split; [|split].
  - destruct (lstrip_prefix s) as (w1 & Hs & Hw1).
    destruct (rstrip_suffix (lstrip s)) as (w2 & Ht & Hw2).
    exists w1, w2. rewrite <- Ht. auto.
  - intros c Hc. apply (lstrip_head s). apply rstrip_head. exact Hc.
  - apply rstrip_last.
Qed.

(** [replace(" ", "")] keeps exactly the characters other than U+0020. *)
Lemma replace_space_filter (s : str) :
  replace_space s = List.filter (fun c => negb (c =? 32)%N) s.
Proof.
  induction s as [|c s IH]; simpl; [reflexivity|].
  rewrite IH. destruct (c =? 32)%N; reflexivity.
Qed.

Lemma replace_space_no_space (s : str) :
  Forall (fun c => c <> 32%N) (replace_space s).
Proof.
  induction s as [|c s IH]; simpl; [constructor|].
  destruct (N.eqb_spec c 32); [exact IH | constructor; assumption].
Qed.

Lemma replace_space_app (s t : str) :
  replace_space (s ++ t) = replace_space s ++ replace_space t.
Proof.
  induction s as [|c s IH]; simpl; [reflexivity|].
  rewrite IH. destruct (c =? 32)%N; reflexivity.
Qed.

Lemma replace_space_head (s : str) :
  (forall c, head s = Some c -> isspace c = false) ->
  head (replace_space s) = head s.
Proof.
  destruct s as [|x s]; simpl; [reflexivity|]. intros H.
  destruct (N.eqb_spec x 32) as [->|_]; [|reflexivity].
  specialize (H 32%N eq_refl). discriminate H.
Qed.

Lemma replace_space_last (s : str) :
  (forall c, last s = Some c -> isspace c = false) ->
  last (replace_space s) = last s.
Proof.
  destruct (rev s) as [|x r] eqn:E.
  - apply (f_equal (@rev N)) in E. rewrite rev_involutive in E. subst s. reflexivity.
  - apply (f_equal (@rev N)) in E. rewrite rev_involutive in E. subst s. simpl.
    rewrite replace_space_app, last_snoc. intros H.
    specialize (H x eq_refl). simpl.
    destruct (N.eqb_spec x 32) as [->|_]; [discriminate H|].
    apply last_snoc.
Qed.

(** The test of line 27 changes nothing: on the two exempted labels the
    normalization is the identity anyway. *)
Lemma normalize_column_strip_replace (c : str) :
  normalize_column c = replace_space (strip c).
Proof.
  unfold normalize_column.
  destruct (str_eqb c (u "Área")) eqn:E1; simpl.
  - apply str_eqb_eq in E1. subst c. reflexivity.
  - destruct (str_eqb c (u "Nivel")) eqn:E2; simpl; [|reflexivity].
    apply str_eqb_eq in E2. subst c. reflexivity.
Qed.

Lemma lstrip_app_space (w s : str) :
  forallb isspace w = true -> lstrip (w ++ s) = lstrip s.
Proof.
  induction w as [|c w IH]; simpl; [reflexivity|].
  intros [Hc Hw]%andb_true_iff. rewrite Hc. apply IH, Hw.
Qed.

Lemma rstrip_app_space (s w : str) :
  forallb isspace w = true -> rstrip (s ++ w) = rstrip s.
Proof.
  intros Hw. unfold rstrip. rewrite rev_app_distr, lstrip_app_space; [reflexivity|].
  rewrite forallb_rev. exact Hw.
Qed.

(** A label that neither starts nor ends with whitespace comes back bare
    from any whitespace put around it. *)
Lemma strip_padded (w1 name w2 : str) :
  forallb isspace w1 = true -> forallb isspace w2 = true ->
  lstrip name = name -> rstrip name = name ->
  name <> [] ->
  strip (w1 ++ name ++ w2) = name.
Proof.
  intros H1 H2 Hl Hr Hne. unfold strip.
  rewrite lstrip_app_space by exact H1.
  assert (lstrip (name ++ w2) = name ++ w2) as ->.
  { destruct name as [|c name]; [congruence|].
    simpl in Hl |- *. destruct (isspace c) eqn:Hc; [|reflexivity].
    exfalso. destruct (lstrip_prefix name) as (w & Hs & _).
    apply (f_equal (@length N)) in Hs. rewrite Hl, length_app in Hs.
    simpl in Hs. lia. }
  rewrite rstrip_app_space by exact H2. exact Hr.
Qed.

(** C3, as the code has it. A header equal to Área or to Nivel is left as it
    is; every header comes out stripped of whitespace at both ends and with
    every space removed (" My Col " gives "MyCol"), and that includes Área or
    Nivel written with whitespace around it, which comes out as the bare
    label. *)
Theorem normalize_column_spec (c : str) :
  (c = u "Área" \/ c = u "Nivel" -> normalize_column c = c) /\
  normalize_column c = replace_space (strip c) /\
  (exists w1 w2,
      c = w1 ++ strip c ++ w2 /\
      forallb isspace w1 = true /\ forallb isspace w2 = true) /\
  Forall (fun x => x <> 32%N) (normalize_column c) /\
  (forall x, head (normalize_column c) = Some x -> isspace x = false) /\
  (forall x, last (normalize_column c) = Some x -> isspace x = false) /\
  normalize_column (u " My Col ") = u "MyCol" /\
  (forall w1 w2 name,
      forallb isspace w1 = true -> forallb isspace w2 = true ->
      name = u "Área" \/ name = u "Nivel" ->
      normalize_column (w1 ++ name ++ w2) = name).
Proof.
  destruct (strip_spec c) as (Hdec & Hhead & Hlast).
  split; [|split; [|split; [|split; [|split; [|split; [|split]]]]]].
  - intros [-> | ->]; reflexivity.
  - apply normalize_column_strip_replace.
  - exact Hdec.
  - rewrite normalize_column_strip_replace. apply replace_space_no_space.
  - rewrite normalize_column_strip_replace, replace_space_head by exact Hhead.
    exact Hhead.
  - rewrite normalize_column_strip_replace, replace_space_last by exact Hlast.
    exact Hlast.
  - reflexivity.
  - intros w1 w2 name H1 H2 Hname.
    rewrite normalize_column_strip_replace.
    destruct Hname as [-> | ->];
      (rewrite strip_padded; [reflexivity | assumption | assumption
                              | reflexivity | reflexivity | discriminate]).
Qed.

(** C3 at the two exempted labels and at a padded one. *)
Lemma normalize_column_spec_witness :
  normalize_column (u "Área") = u "Área" /\
  normalize_column (u "Nivel") = u "Nivel" /\
  normalize_column (u "  Área ") = u "Área".
Proof.
  split; [|split].
  - exact (proj1 (normalize_column_spec (u "Área")) (or_introl eq_refl)).
  - exact (proj1 (normalize_column_spec (u "Nivel")) (or_intror eq_refl)).
  - exact (proj2 (proj2 (proj2 (proj2 (proj2 (proj2 (proj2
             (normalize_column_spec [])))))))
             (u "  ") (u " ") (u "Área") eq_refl eq_refl (or_introl eq_refl)).
Defined.

(** C3 as the spec words it fails: Nivel written with whitespace around it
    is not left unchanged, it is rewritten to the bare label. *)
Lemma normalize_column_padded_counterexample :
  normalize_column (u " Nivel ") = u "Nivel" /\
  normalize_column (u " Nivel ") <> u " Nivel " /\
  ~ (forall w1 w2 : str,
       forallb isspace w1 = true -> forallb isspace w2 = true ->
       normalize_column (w1 ++ u "Nivel" ++ w2) = w1 ++ u "Nivel" ++ w2).
Proof.
  split; [reflexivity|]. split; [discriminate|].
  intros H. specialize (H (u " ") (u " ") eq_refl eq_refl). discriminate H.
Qed.

(** ** Filters *)

(** Selecting by the mask of [key == X] keeps the rows whose key is [X]. *)
Lemma mask_select (key : Response -> option str) (X : str) (l : list Response) :
  boolean_index l (eq_str (List.map key l) X) = filter (fun r => key r = Some X) l.
Proof.
  induction l as [|r l IH]; [reflexivity|].
  simpl. rewrite filter_cons, IH.
  destruct (key r) as [k|] eqn:Hk.
  - destruct (str_eqb k X) eqn:E.
    + apply str_eqb_eq in E. subst k. rewrite decide_True; reflexivity.
    + rewrite decide_False; [reflexivity|].
      intros [= ->]. assert (str_eqb X X = true) by (apply str_eqb_eq; reflexivity).
      congruence.
  - rewrite decide_False; [reflexivity | discriminate].
Qed.

Lemma sentinel_test (sel sentinel : str) :
  sel <> sentinel -> negb (str_eqb sel sentinel) = true.
Proof.
  intros Hne. destruct (str_eqb sel sentinel) eqn:E; [|reflexivity].
  apply str_eqb_eq in E. contradiction.
Qed.

(** The view under an active Área filter alone, and under an active Nivel
    filter alone. *)
Lemma df_f_area_only (df : DataFrame) (X : str) :
  X <> u "(Todas)" ->
  df_f df X (u "(Todos)")
  = {| columns := columns df; rows := filter (fun r => Area r = Some X) (rows df) |}.
Proof.
  intros HX. unfold df_f. rewrite (sentinel_test _ _ HX). simpl.
  unfold getitem_mask. rewrite mask_select. reflexivity.
Qed.

Lemma df_f_nivel_only (df : DataFrame) (Y : str) :
  Y <> u "(Todos)" ->
  df_f df (u "(Todas)") Y
  = {| columns := columns df; rows := filter (fun r => Nivel r = Some Y) (rows df) |}.
Proof.
  intros HY. unfold df_f. rewrite (sentinel_test _ _ HY). simpl.
  destruct df as [cols rs]; simpl.
  unfold getitem_mask; simpl. rewrite mask_select. reflexivity.
Qed.

Lemma df_f_both (df : DataFrame) (X Y : str) :
  X <> u "(Todas)" -> Y <> u "(Todos)" ->
  df_f df X Y
  = {| columns := columns df;
       rows := filter (fun r => Area r = Some X /\ Nivel r = Some Y) (rows df) |}.
Proof.
  intros HX HY. unfold df_f.
  rewrite (sentinel_test _ _ HX), (sentinel_test _ _ HY).
  unfold getitem_mask; simpl. rewrite !mask_select, list_filter_filter.
  f_equal. apply list_filter_iff. tauto.
Qed.

(** C5. With both filters active, on X and on Y, the view holds exactly the
    rows whose Área is X and whose Nivel is Y, in their original order; the
    header is kept; filtering by one and then by the other, in either order,
    gives the same view as both at once. *)
Theorem df_f_both_active (df : DataFrame) (X Y : str) :
  X <> u "(Todas)" -> Y <> u "(Todos)" ->
  rows (df_f df X Y)
    = filter (fun r => Area r = Some X /\ Nivel r = Some Y) (rows df) /\
  rows (df_f df X Y) `sublist_of` rows df /\
  (forall r, r ∈ rows (df_f df X Y)
             <-> r ∈ rows df /\ Area r = Some X /\ Nivel r = Some Y) /\
  columns (df_f df X Y) = columns df /\
  df_f (df_f df X (u "(Todos)")) (u "(Todas)") Y = df_f df X Y /\
  df_f (df_f df (u "(Todas)") Y) X (u "(Todos)") = df_f df X Y.
Proof.
  intros HX HY. rewrite (df_f_both df X Y HX HY). simpl.
  split; [reflexivity|]. split; [apply sublist_filter|].
  split; [intros r; rewrite list_elem_of_filter; tauto|].
  split; [reflexivity|]. split.
  - rewrite (df_f_area_only df X HX), df_f_nivel_only by exact HY. simpl.
    rewrite list_filter_filter. f_equal. apply list_filter_iff. tauto.
  - rewrite (df_f_nivel_only df Y HY), df_f_area_only by exact HX. simpl.
    rewrite list_filter_filter. reflexivity.
Qed.

(** C5 on the scenario, for Área A and Nivel Jefe. *)
Lemma df_f_both_active_witness :
  rows (df_f scenario (u "A") (u "Jefe"))
  = filter (fun r => Area r = Some (u "A") /\ Nivel r = Some (u "Jefe")) (rows scenario).
Proof.
  exact (proj1 (df_f_both_active scenario (u "A") (u "Jefe")
                  ltac:(discriminate) ltac:(discriminate))).
Defined.

(** The end-to-end scenario: Área A keeps the first two rows, whose score is
    (1 - 1) / 2 * 100 = 0. *)
Example scenario_area_A :
  let view := df_f (add_PromedioGeneral scenario) (u "A") (u "(Todos)") in
  len view = 2%nat /\ (enps_global view == 0)%Q /\
  List.map eNPS (rows view) = [Some 100; Some (-100)]%Q.
Proof. repeat split. Qed.

(** C6. With the two selections on their sentinels the view is the frame
    itself: all its rows, unchanged and in order. *)
Theorem df_f_no_filter (df : DataFrame) :
  df_f df (u "(Todas)") (u "(Todos)") = df /\
  rows (df_f df (u "(Todas)") (u "(Todos)")) = rows df /\
  len (df_f df (u "(Todas)") (u "(Todos)")) = len df.
Proof. repeat split. Qed.

(** ** Runs of the script *)

Section Runs.

Variable read_excel : Source -> str -> Exception + DataFrame.

(** The events of [render], one per call. *)
Lemma render_run (df : DataFrame) (area_sel nivel_sel : str) :
  render df area_sel nivel_sel =
  (let df' := add_PromedioGeneral df in
   let view := df_f df' area_sel nivel_sel in
   [ selectbox (u "Área") (areas df') 0;
     selectbox (u "Nivel") (niveles df') 0;
     metric (u "eNPS Global") (FormatFixed 0 (Some (enps_global view)));
     metric (u "Promedio General")
       (if truthy (len view)
        then FormatFixed 2 (mean (List.map PromedioGeneral (rows view)))
        else Literal (u "0.00"));
     metric (u "N° Respuestas") (FormatInt (len view));
     st_markdown (u "---");
     plotly_chart (radar_fig view);
     plotly_chart (bars_fig view);
     heatmap view;
     plotly_chart rag_fig;
     st_expander (u "Ver datos filtrados (previa)");
     st_dataframe view;
     st_caption
       (u "© 2025 Reid & Compañía S. A. · Dashboard DCS · Fuente: Comité de Transformación Digital") ],
   Returned tt).
Proof. reflexivity. Qed.

(** A run whose read fails: the preamble, the read, the message, the stop. *)
Lemma script_read_fails uploaded area_sel nivel_sel e :
  read_excel (chosen_source uploaded) (u "Raw") = inl e ->
  script read_excel uploaded area_sel nivel_sel =
  (preamble ++ [pd_read_excel (chosen_source uploaded) (u "Raw");
                st_error load_error_message],
   Stopped).
Proof.
  intros Hread. unfold script, load, load_data.
  destruct uploaded as [f|]; simpl in Hread |- *;
    unfold mbind, Run_bind, emit, try_except; simpl; rewrite Hread; reflexivity.
Qed.

(** A run whose read succeeds goes on to render the loaded frame. *)
Lemma script_read_succeeds uploaded area_sel nivel_sel raw :
  read_excel (chosen_source uploaded) (u "Raw") = inr raw ->
  script read_excel uploaded area_sel nivel_sel =
  (preamble ++ [pd_read_excel (chosen_source uploaded) (u "Raw")]
            ++ fst (render (normalized raw) area_sel nivel_sel),
   Returned tt).
Proof.
  intros Hread. unfold script, load, load_data.
  destruct uploaded as [f|]; simpl in Hread |- *;
    unfold mbind, Run_bind, emit, try_except; simpl; rewrite Hread; reflexivity.
Qed.

End Runs.

(** C7. When the read fails, whatever the exception, the run shows the
    preamble, reads once, shows the one static message and stops: no select
    box, KPI, chart or table follows.  And in every run the only source read
    is the upload when there is one, the default path when there is none. *)
Theorem load_failure_stops
    (read_excel : Source -> str -> Exception + DataFrame)
    (uploaded : option (list N)) (area_sel nivel_sel : str) :
  (forall e,
     read_excel (chosen_source uploaded) (u "Raw") = inl e ->
     script read_excel uploaded area_sel nivel_sel =
     ([ set_page_config (u "DCS – Reid & Compañía");
        st_title (u "Digital Culture Scan (DCS) – Reid & Compañía S. A.");
        st_caption
          (u "Presentado al Comité de Transformación Digital · Fuente: Comité TD Reid & Co., 2025");
        sidebar_header (u "Fuente de datos");
        file_uploader (u "Sube el dataset Excel (Dataset_DCS_ReidCo.xlsx)");
        pd_read_excel (chosen_source uploaded) (u "Raw");
        st_error load_error_message ],
      Stopped)) /\
  (forall f,
     uploaded = Some f ->
     sources_read (fst (script read_excel uploaded area_sel nivel_sel)) = [Upload f]) /\
  (uploaded = None ->
   sources_read (fst (script read_excel uploaded area_sel nivel_sel))
   = [Path default_path]).
Proof.
  assert (Hsrc : sources_read (fst (script read_excel uploaded area_sel nivel_sel))
                 = [chosen_source uploaded]).
  { destruct (read_excel (chosen_source uploaded) (u "Raw")) as [e|raw] eqn:Hread.
    - rewrite (script_read_fails _ _ _ _ _ Hread). reflexivity.
    - rewrite (script_read_succeeds _ _ _ _ _ Hread), render_run. simpl.
      unfold heatmap. destruct (hm_df _); reflexivity. }
  split; [|split].
  - intros e Hread. apply (script_read_fails _ _ _ _ _ Hread).
  - intros f ->. exact Hsrc.
  - intros ->. exact Hsrc.
Qed.

(** C7 with no upload and no file at the default path. *)
Lemma load_failure_stops_witness :
  script failing_reader None (u "(Todas)") (u "(Todos)") =
  (preamble ++ [pd_read_excel (Path default_path) (u "Raw");
                st_error load_error_message],
   Stopped).
Proof.
  exact (proj1 (load_failure_stops failing_reader None (u "(Todas)") (u "(Todos)"))
           (u "FileNotFoundError") eq_refl).
Defined.

(** ** The empty view *)

Lemma empty_view_aggregates (view : DataFrame) :
  rows view = [] ->
  truthy (len view) = false /\
  enps_global view = 0%Q /\
  vals view = [Some 0; Some 0; Some 0; Some 0]%Q /\
  bars_df view = [] /\
  hm_df view = [] /\
  heatmap view = st_info heatmap_placeholder.
Proof.
  destruct view as [cols rs]. simpl. intros ->. repeat split.
Qed.

(** C4. When the selection matches no row of the loaded frame the run goes
    through to its end: the eNPS readout is 0, the four dimension means shown
    are 0 (not missing), the per-Área grouping has no group, and the heatmap
    gives way to the no-data message. *)
Theorem empty_view_run
    (read_excel : Source -> str -> Exception + DataFrame)
    (uploaded : option (list N)) (area_sel nivel_sel : str) (raw : DataFrame) :
  let df := add_PromedioGeneral (normalized raw) in
  let view := df_f df area_sel nivel_sel in
  read_excel (chosen_source uploaded) (u "Raw") = inr raw ->
  rows view = [] ->
  enps_global view = 0%Q /\
  vals view = [Some 0; Some 0; Some 0; Some 0]%Q /\
  bars_df view = [] /\
  hm_df view = [] /\
  heatmap view = st_info heatmap_placeholder /\
  script read_excel uploaded area_sel nivel_sel =
  (preamble ++
   [ pd_read_excel (chosen_source uploaded) (u "Raw");
     selectbox (u "Área") (areas df) 0;
     selectbox (u "Nivel") (niveles df) 0;
     metric (u "eNPS Global") (FormatFixed 0 (Some 0%Q));
     metric (u "Promedio General") (Literal (u "0.00"));
     metric (u "N° Respuestas") (FormatInt 0);
     st_markdown (u "---");
     plotly_chart
       (Scatterpolar [Some 0; Some 0; Some 0; Some 0; Some 0]%Q
          [u "Agilidad"; u "Empoderamiento"; u "MentalidadDatos"; u "CorajeInnovar";
           u "Agilidad"]);
     plotly_chart (Bar []);
     st_info heatmap_placeholder;
     plotly_chart rag_fig;
     st_expander (u "Ver datos filtrados (previa)");
     st_dataframe view;
     st_caption
       (u "© 2025 Reid & Compañía S. A. · Dashboard DCS · Fuente: Comité de Transformación Digital") ],
   Returned tt).
Proof.
  intros df view Hread Hempty.
  destruct (empty_view_aggregates view Hempty) as (Hlen & Henps & Hvals & Hbars & Hhm & Hheat).
  repeat (split; [assumption|]).
  rewrite (script_read_succeeds _ _ _ _ _ Hread), render_run.
  cbv zeta. fold df. fold view.
  unfold radar_fig, bars_fig, len. rewrite Henps, Hvals, Hbars, Hheat, Hempty.
  reflexivity.
Qed.

(** C4 on the scenario: no row is both of Área B and of Nivel Analista. *)
Lemma empty_view_run_witness :
  enps_global (df_f (add_PromedioGeneral (normalized scenario)) (u "B") (u "Analista"))
  = 0%Q /\
  snd (script scenario_reader None (u "B") (u "Analista")) = Returned tt.
Proof.
  pose proof (empty_view_run scenario_reader None (u "B") (u "Analista") scenario
                eq_refl eq_refl) as H.
  split.
  - exact (proj1 H).
  - exact (f_equal snd (proj2 (proj2 (proj2 (proj2 (proj2 H)))))).
Defined.

(** C8, as the code has it. When the view is empty the bar chart is still
    drawn as a chart, over an empty frame: it has no bar and no placeholder
    stands in for it; the one placeholder of the run is the heatmap's. *)
Theorem empty_view_bar_chart
    (read_excel : Source -> str -> Exception + DataFrame)
    (uploaded : option (list N)) (area_sel nivel_sel : str) (raw : DataFrame) :
  let view := df_f (add_PromedioGeneral (normalized raw)) area_sel nivel_sel in
  read_excel (chosen_source uploaded) (u "Raw") = inr raw ->
  rows view = [] ->
  bars_fig view = Bar [] /\
  fst (script read_excel uploaded area_sel nivel_sel) !! 13%nat
  = Some (plotly_chart (Bar [])) /\
  placeholders (fst (script read_excel uploaded area_sel nivel_sel))
  = [st_info heatmap_placeholder].
Proof.
  intros view Hread Hempty.
  destruct (empty_view_aggregates view Hempty) as (_ & _ & _ & Hbars & _ & Hheat).
  rewrite (script_read_succeeds _ _ _ _ _ Hread), render_run.
  cbv zeta. fold view. unfold bars_fig. rewrite Hbars, Hheat.
  repeat split.
Qed.

(** C8 on the scenario, for Área B and Nivel Analista. *)
Lemma empty_view_bar_chart_witness :
  bars_fig (df_f (add_PromedioGeneral (normalized scenario)) (u "B") (u "Analista"))
  = Bar [].
Proof.
  exact (proj1 (empty_view_bar_chart scenario_reader None (u "B") (u "Analista")
                  scenario eq_refl eq_refl)).
Defined.

(** C8 as the spec words it fails: on the scenario, Área B with Nivel
    Analista leaves no row, and the run draws the bar chart (with no bar)
    where the spec wants a placeholder; the heatmap's message is the only one. *)
Lemma bar_chart_placeholder_counterexample :
  rows (df_f (add_PromedioGeneral (normalized scenario)) (u "B") (u "Analista")) = [] /\
  fst (script scenario_reader None (u "B") (u "Analista")) !! 13%nat
  = Some (plotly_chart (Bar [])) /\
  placeholders (fst (script scenario_reader None (u "B") (u "Analista")))
  = [st_info heatmap_placeholder] /\
  ~ (exists message,
       fst (script scenario_reader None (u "B") (u "Analista")) !! 13%nat
       = Some (st_info message)).
Proof.
  split; [reflexivity|]. split; [reflexivity|]. split; [reflexivity|].
  intros [message H]. vm_compute in H. discriminate H.
Qed.

(** ** A dimension with no answer *)

Lemma mean_all_missing (series : list num) :
  Forall (fun c => c = None) series -> mean series = None.
Proof.
  intros Hall. unfold mean.
  assert (dropna series = []) as ->; [|reflexivity].
  induction Hall as [|c l -> _ IH]; simpl; [reflexivity | exact IH].
Qed.

Lemma truthy_len (view : DataFrame) : rows view <> [] -> truthy (len view) = true.
Proof. unfold len. destruct (rows view); [congruence | reflexivity]. Qed.

(** With a row in the view, each radar value is the mean of its column. *)
Lemma vals_nonempty (view : DataFrame) :
  rows view <> [] ->
  vals view = List.map (fun col => mean (List.map (cell col) (rows view))) radar_dims.
Proof. intros Hne. unfold vals. rewrite (truthy_len view Hne). reflexivity. Qed.

(** C10. In a view that has rows, a dimension whose cells are all missing is
    shown with a missing mean, not 0, in the radar values and in the radar
    polygon: with a row in the view each value is the plain mean of its
    column, and the default 0 is taken only by a view with no row. *)
Theorem missing_dimension_mean (view : DataFrame) (i : nat) (col : Column) :
  radar_dims !! i = Some col ->
  (rows view <> [] ->
   vals view !! i = Some (mean (List.map (cell col) (rows view))) /\
   (Forall (fun r => cell col r = None) (rows view) ->
    mean (List.map (cell col) (rows view)) = None /\
    vals view !! i = Some None /\
    match radar_fig view with
    | Scatterpolar r _ => r !! i = Some None
    | _ => False
    end)) /\
  (rows view = [] -> vals view !! i = Some (Some 0%Q)).
Proof.
  intros Hcol.
  assert (Hi : (i < 4)%nat) by (apply lookup_lt_Some in Hcol; exact Hcol).
  split.
  - intros Hne.
    assert (Hval : vals view !! i = Some (mean (List.map (cell col) (rows view)))).
    { rewrite (vals_nonempty view Hne).
      change (List.map ?f radar_dims) with (f <$> radar_dims).
      rewrite list_lookup_fmap, Hcol. reflexivity. }
    split; [exact Hval|].
    intros Hall.
    assert (Hmean : mean (List.map (cell col) (rows view)) = None).
    { apply mean_all_missing. apply Forall_map. exact Hall. }
    rewrite Hmean in Hval. split; [exact Hmean|]. split; [exact Hval|].
    unfold radar_fig. rewrite lookup_app_l; [exact Hval|].
    apply lookup_lt_Some in Hval. exact Hval.
  - intros Hempty.
    destruct (empty_view_aggregates view Hempty) as (_ & _ & -> & _).
    destruct i as [|[|[|[|i]]]]; try reflexivity. simpl in Hi. lia.
Qed.

(** C10 on a view of two rows without any CorajeInnovar answer. *)
Lemma missing_dimension_mean_witness :
  vals unanswered_view !! 3%nat = Some None.
Proof.
  exact (proj1 (proj2 (proj2 (proj1
           (missing_dimension_mean unanswered_view 3
              (mkColumn (u "CorajeInnovar") CorajeInnovar) eq_refl)
           ltac:(discriminate))
           ltac:(repeat constructor)))).
Defined.

(** * Further properties of the pipeline *)

(** ** Sorting and distinct values *)

Lemma str_ltb_irrefl (a : str) : str_ltb a a = false.
Proof.
  induction a as [|x a IH]; simpl; [reflexivity|].
  rewrite N.ltb_irrefl, N.eqb_refl, IH. reflexivity.
Qed.

Lemma str_ltb_trans (a b c : str) :
  str_ltb a b = true -> str_ltb b c = true -> str_ltb a c = true.
Proof.
  revert b c. induction a as [|x a IH]; intros [|y b] [|z c]; simpl;
    try discriminate; try reflexivity.
  rewrite !orb_true_iff, !andb_true_iff, !N.ltb_lt, !N.eqb_eq.
  intros [Hxy | [-> Hab]] [Hyz | [-> Hbc]].
  - left. lia.
  - left. exact Hxy.
  - left. exact Hyz.
  - right. split; [reflexivity|]. exact (IH b c Hab Hbc).
Qed.

Lemma str_ltb_total (a b : str) :
  str_ltb a b = false -> str_ltb b a = false -> a = b.
Proof.
  revert b. induction a as [|x a IH]; intros [|y b]; simpl;
    try discriminate; [reflexivity|].
  rewrite !orb_false_iff, !andb_false_iff, !N.ltb_ge, !N.eqb_neq.
  intros [Hyx H1] [Hxy H2].
  assert (x = y) as -> by lia.
  destruct H1 as [H1|H1]; [congruence|]. destruct H2 as [H2|H2]; [congruence|].
  rewrite (IH b H1 H2). reflexivity.
Qed.

Lemma str_le_trans (a b c : str) : str_le a b -> str_le b c -> str_le a c.
Proof.
  unfold str_le. intros Hab Hbc.
  destruct (str_ltb c a) eqn:Hca; [|reflexivity].
  destruct (str_ltb a b) eqn:Hlt.
  - rewrite (str_ltb_trans c a b Hca Hlt) in Hbc. discriminate Hbc.
  - rewrite (str_ltb_total a b Hlt Hab) in Hca. congruence.
Qed.

Lemma str_lt_le (a b : str) : str_lt a b -> str_le a b.
Proof.
  unfold str_lt, str_le. intros Hab.
  destruct (str_ltb b a) eqn:Hba; [|reflexivity].
  pose proof (str_ltb_trans a b a Hab Hba) as H.
  rewrite str_ltb_irrefl in H. discriminate H.
Qed.

Lemma insert_sorted_perm (x : str) (l : list str) : insert_sorted x l ≡ₚ x :: l.
Proof.
  induction l as [|y l IH]; simpl; [reflexivity|].
  destruct (str_ltb y x); [|reflexivity].
  rewrite IH. apply perm_swap.
Qed.

Lemma sorted_perm (l : list str) : sorted l ≡ₚ l.
Proof.
  induction l as [|x l IH]; simpl; [reflexivity|].
  rewrite insert_sorted_perm, IH. reflexivity.
Qed.

Lemma insert_sorted_sorted (x : str) (l : list str) :
  StronglySorted str_le l -> StronglySorted str_le (insert_sorted x l).
Proof.
  induction 1 as [|y l Hl IH Hy]; simpl; [repeat constructor|].
  destruct (str_ltb y x) eqn:Hyx.
  - constructor; [exact IH|].
    rewrite insert_sorted_perm. constructor; [apply str_lt_le, Hyx | exact Hy].
  - constructor; [constructor; assumption|].
    constructor; [exact Hyx|].
    eapply Forall_impl; [exact Hy|]. intros z Hz. exact (str_le_trans x y z Hyx Hz).
Qed.

Lemma sorted_sorted (l : list str) : StronglySorted str_le (sorted l).
Proof.
  induction l as [|x l IH]; simpl; [constructor|].
  apply insert_sorted_sorted, IH.
Qed.

(** An ascending list without repeats is strictly ascending. *)
Lemma sorted_strict (l : list str) :
  StronglySorted str_le l -> NoDup l -> StronglySorted str_lt l.
Proof.
  induction 1 as [|x l Hl IH Hx]; intros Hnd; [constructor|].
  apply NoDup_cons in Hnd as [Hnotin Hnd].
  constructor; [exact (IH Hnd)|].
  rewrite Forall_forall in Hx |- *. intros y Hy.
  unfold str_lt. destruct (str_ltb x y) eqn:Hxy; [reflexivity|].
  exfalso. apply Hnotin.
  rewrite (str_ltb_total x y Hxy (Hx y Hy)). exact Hy.
Qed.

Lemma existsb_str_eqb (x : str) (seen : list str) :
  existsb (str_eqb x) seen = true <-> x ∈ seen.
Proof.
  rewrite existsb_exists. split.
  - intros (y & Hy & Heq). apply str_eqb_eq in Heq. subst y.
    apply list_elem_of_In. exact Hy.
  - intros Hx. exists x. split; [apply list_elem_of_In, Hx | apply str_eqb_eq; reflexivity].
Qed.

Lemma unique_from_spec (seen l : list str) :
  NoDup (unique_from seen l) /\
  (forall x, x ∈ unique_from seen l <-> x ∈ l /\ x ∉ seen).
Proof.
  revert seen. induction l as [|y l IH]; intros seen; simpl.
  - split; [constructor|]. intros x. rewrite elem_of_nil. tauto.
  - destruct (existsb (str_eqb y) seen) eqn:E.
    + apply existsb_str_eqb in E. destruct (IH seen) as [Hnd Hin].
      split; [exact Hnd|]. intros x. rewrite Hin, elem_of_cons.
      split; [tauto|]. intros [[-> | Hx] Hns]; tauto.
    + assert (Hy : y ∉ seen).
      { intros Hy. apply existsb_str_eqb in Hy. congruence. }
      destruct (IH (y :: seen)) as [Hnd Hin]. split.
      * constructor; [|exact Hnd]. rewrite Hin, elem_of_cons. tauto.
      * intros x. rewrite !elem_of_cons, Hin, elem_of_cons.
        split; [intros [-> | [Hx Hns]]; tauto|].
        intros [[-> | Hx] Hns]; [tauto|].
        destruct (decide (x = y)) as [->|Hne]; tauto.
Qed.

Lemma elem_of_dropna {A} (series : list (option A)) (x : A) :
  x ∈ dropna series <-> Some x ∈ series.
Proof.
  induction series as [|[y|] series IH]; simpl.
  - rewrite !elem_of_nil. tauto.
  - rewrite !elem_of_cons, IH. split; [intros [-> | H]; tauto|].
    intros [[= ->] | H]; tauto.
  - rewrite elem_of_cons, IH. split; [tauto|]. intros [H | H]; [discriminate | tauto].
Qed.

(** The distinct non-missing values of a column, ascending: what lines 52-53
    offer below the sentinel and what [groupby] takes as its keys. *)
Lemma sorted_unique_spec (key : Response -> option str) (l : list Response) :
  let values := sorted (unique (dropna (List.map key l))) in
  StronglySorted str_lt values /\
  NoDup values /\
  (forall x, x ∈ values <-> exists r, r ∈ l /\ key r = Some x).
Proof.
  cbv zeta. destruct (unique_from_spec [] (dropna (List.map key l))) as [Hnd Hin].
  assert (Hnd' : NoDup (sorted (unique (dropna (List.map key l))))).
  { rewrite sorted_perm. exact Hnd. }
  split; [apply sorted_strict; [apply sorted_sorted | exact Hnd']|].
  split; [exact Hnd'|].
  intros x. rewrite sorted_perm. unfold unique. rewrite Hin, elem_of_dropna.
  change (List.map key l) with (key <$> l). rewrite list_elem_of_fmap.
  split.
  - intros [(r & Hr & Hrl) _]. exists r. split; [exact Hrl | congruence].
  - intros (r & Hrl & Hr). split; [|apply not_elem_of_nil].
    exists r. split; [congruence | exact Hrl].
Qed.

(** ** The select boxes *)

(** X1. Each select box offers its sentinel first and then the distinct
    non-missing values of its column in strictly ascending order: a value is
    offered exactly when some row of the frame carries it. *)
Theorem select_options (df : DataFrame) :
  (exists rest,
      areas df = u "(Todas)" :: rest /\
      StronglySorted str_lt rest /\
      (forall x, x ∈ rest <-> exists r, r ∈ rows df /\ Area r = Some x)) /\
  (exists rest,
      niveles df = u "(Todos)" :: rest /\
      StronglySorted str_lt rest /\
      (forall x, x ∈ rest <-> exists r, r ∈ rows df /\ Nivel r = Some x)).
Proof.
  split.
  - destruct (sorted_unique_spec Area (rows df)) as (Hs & _ & Hin).
    eexists. split; [reflexivity|]. split; assumption.
  - destruct (sorted_unique_spec Nivel (rows df)) as (Hs & _ & Hin).
    eexists. split; [reflexivity|]. split; assumption.
Qed.

(** ** The view under any selection *)

Lemma filter_all {A} (P : A -> Prop) `{!forall x, Decision (P x)} (l : list A) :
  (forall x, P x) -> filter P l = l.
Proof.
  intros HP. induction l as [|x l IH]; [reflexivity|].
  rewrite filter_cons_True by apply HP. rewrite IH. reflexivity.
Qed.

(** The rows of the view, whatever the two selections: a selection on its
    sentinel lets every row pass, any other keeps the rows equal to it. *)
Lemma df_f_rows (df : DataFrame) (X Y : str) :
  rows (df_f df X Y)
  = filter (fun r => (X = u "(Todas)" \/ Area r = Some X) /\
                     (Y = u "(Todos)" \/ Nivel r = Some Y)) (rows df).
Proof.
  destruct (decide (X = u "(Todas)")) as [->|HX];
    destruct (decide (Y = u "(Todos)")) as [->|HY].
  - symmetry. apply filter_all. intros r. split; left; reflexivity.
  - rewrite (df_f_nivel_only df Y HY). simpl. apply list_filter_iff. tauto.
  - rewrite (df_f_area_only df X HX). simpl. apply list_filter_iff. tauto.
  - rewrite (df_f_both df X Y HX HY). simpl. apply list_filter_iff. tauto.
Qed.

Lemma df_f_columns (df : DataFrame) (X Y : str) : columns (df_f df X Y) = columns df.
Proof.
  unfold df_f.
  destruct (negb (str_eqb X (u "(Todas)"))), (negb (str_eqb Y (u "(Todos)")));
    reflexivity.
Qed.

Lemma DataFrame_eq (a b : DataFrame) :
  columns a = columns b -> rows a = rows b -> a = b.
Proof. destruct a, b. simpl. intros -> ->. reflexivity. Qed.

(** X2. Whatever the two selections, the view keeps the header and holds,
    as a subsequence of the frame's rows, the rows that pass both filters; a
    filter on its sentinel passes every row, also when the sentinel's text is
    itself a value of the column.  Filtering the view again by the same
    selections changes nothing, and under an Área selection other than the
    sentinel no row with a missing Área is shown. *)
Theorem df_f_any_selection (df : DataFrame) (X Y : str) :
  rows (df_f df X Y)
  = filter (fun r => (X = u "(Todas)" \/ Area r = Some X) /\
                     (Y = u "(Todos)" \/ Nivel r = Some Y)) (rows df) /\
  columns (df_f df X Y) = columns df /\
  rows (df_f df X Y) `sublist_of` rows df /\
  (len (df_f df X Y) <= len df)%nat /\
  df_f (df_f df X Y) X Y = df_f df X Y /\
  (X <> u "(Todas)" -> forall r, r ∈ rows (df_f df X Y) -> Area r <> None).
Proof.
  split; [apply df_f_rows|]. split; [apply df_f_columns|].
  split; [rewrite df_f_rows; apply sublist_filter|].
  split; [unfold len; rewrite df_f_rows; apply length_filter|].
  split.
  - apply DataFrame_eq; [rewrite !df_f_columns; reflexivity|].
    rewrite (df_f_rows (df_f df X Y)), df_f_rows, list_filter_filter.
    apply list_filter_iff. tauto.
  - intros HX r. rewrite df_f_rows, list_elem_of_filter.
    intros [[[HX' | HA] _] _]; congruence.
Qed.

(** X2 on the scenario: under Área A every row shown has an Área. *)
Lemma df_f_any_selection_witness :
  Forall (fun r => is_Some (Area r)) (rows (df_f scenario (u "A") (u "(Todos)"))).
Proof.
  apply Forall_forall. intros r Hr. apply not_eq_None_Some.
  exact (proj2 (proj2 (proj2 (proj2 (proj2
           (df_f_any_selection scenario (u "A") (u "(Todos)"))))))
           ltac:(discriminate) r Hr).
Defined.

(** X3. A value offered by a select box, chosen alone, never empties the
    view: some row carries it. *)
Theorem offered_option_keeps_rows (df : DataFrame) (x : str) :
  (x ∈ tail (areas df) -> rows (df_f df x (u "(Todos)")) <> []) /\
  (x ∈ tail (niveles df) -> rows (df_f df (u "(Todas)") x) <> []).
Proof.
  split; intros Hx; simpl in Hx.
  - apply (sorted_unique_spec Area (rows df)) in Hx as (r & Hr & HA).
    rewrite df_f_rows. intros Hnil.
    assert (Hin : r ∈ filter
              (fun r => (x = u "(Todas)" \/ Area r = Some x) /\
                        (u "(Todos)" = u "(Todos)" \/ Nivel r = Some (u "(Todos)")))
              (rows df)).
    { apply list_elem_of_filter. split; [split; [right; exact HA | left; reflexivity]|].
      exact Hr. }
    rewrite Hnil in Hin. apply elem_of_nil in Hin. exact Hin.
  - apply (sorted_unique_spec Nivel (rows df)) in Hx as (r & Hr & HN).
    rewrite df_f_rows. intros Hnil.
    assert (Hin : r ∈ filter
              (fun r => (u "(Todas)" = u "(Todas)" \/ Area r = Some (u "(Todas)")) /\
                        (x = u "(Todos)" \/ Nivel r = Some x))
              (rows df)).
    { apply list_elem_of_filter. split; [split; [left; reflexivity | right; exact HN]|].
      exact Hr. }
    rewrite Hnil in Hin. apply elem_of_nil in Hin. exact Hin.
Qed.

(** X3 on the scenario: Área B, offered by the box, keeps a row. *)
Lemma offered_option_keeps_rows_witness :
  (0 < len (df_f scenario (u "B") (u "(Todos)")))%nat.
Proof.
  apply Nat.neq_0_lt_0. intros Hlen. apply length_zero_iff_nil in Hlen.
  exact (proj1 (offered_option_keeps_rows scenario (u "B"))
           ltac:(vm_compute; apply list_elem_of_In; simpl; tauto) Hlen).
Defined.

(** ** The derived column and the filters *)

Lemma boolean_index_map {A B} (f : A -> B) (l : list A) (mask : list bool) :
  boolean_index (List.map f l) mask = List.map f (boolean_index l mask).
Proof.
  revert mask. induction l as [|x l IH]; intros [|b mask]; simpl; try reflexivity.
  rewrite IH. destruct b; reflexivity.
Qed.

Lemma map_key_with_PromedioGeneral {A} (key : Response -> A) (l : list Response) :
  (forall r, key (with_PromedioGeneral r) = key r) ->
  List.map key (List.map with_PromedioGeneral l) = List.map key l.
Proof.
  intros Hkey. rewrite List.map_map. apply List.map_ext. exact Hkey.
Qed.

Lemma getitem_mask_add_PromedioGeneral (df : DataFrame) (key : Response -> option str)
    (sel : str) :
  (forall r, key (with_PromedioGeneral r) = key r) ->
  getitem_mask (add_PromedioGeneral df)
    (eq_str (List.map key (rows (add_PromedioGeneral df))) sel)
  = add_PromedioGeneral (getitem_mask df (eq_str (List.map key (rows df)) sel)).
Proof.
  intros Hkey. unfold getitem_mask, add_PromedioGeneral. simpl.
  rewrite (map_key_with_PromedioGeneral key _ Hkey), boolean_index_map. reflexivity.
Qed.

(** Deriving [PromedioGeneral] and filtering commute. *)
Lemma df_f_derived (df : DataFrame) (area_sel nivel_sel : str) :
  df_f (add_PromedioGeneral df) area_sel nivel_sel
  = add_PromedioGeneral (df_f df area_sel nivel_sel).
Proof.
  unfold df_f.
  destruct (negb (str_eqb area_sel (u "(Todas)")));
    destruct (negb (str_eqb nivel_sel (u "(Todos)"))); cbv zeta.
  - rewrite (getitem_mask_add_PromedioGeneral df Area) by reflexivity.
    rewrite (getitem_mask_add_PromedioGeneral _ Nivel) by reflexivity. reflexivity.
  - apply (getitem_mask_add_PromedioGeneral df Area). reflexivity.
  - apply (getitem_mask_add_PromedioGeneral df Nivel). reflexivity.
  - reflexivity.
Qed.

(** X4. Deriving [PromedioGeneral] and filtering commute: the view of the
    derived frame is the derived frame of the view.  So under every selection
    each row shown carries the mean of its own four dimension cells, and its
    answers are those of a row of the sheet. *)
Theorem df_f_add_PromedioGeneral (df : DataFrame) (area_sel nivel_sel : str) :
  df_f (add_PromedioGeneral df) area_sel nivel_sel
  = add_PromedioGeneral (df_f df area_sel nivel_sel) /\
  (forall r, r ∈ rows (df_f (add_PromedioGeneral df) area_sel nivel_sel) ->
     PromedioGeneral r = mean (row_values radar_dims r) /\
     exists r0, r0 ∈ rows df /\ same_answers r0 r).
Proof.
  split; [apply df_f_derived|].
  intros r. rewrite df_f_derived. unfold add_PromedioGeneral. cbn [rows].
  intros Hr. apply list_elem_of_In, in_map_iff in Hr as (r0 & <- & Hr0).
  split; [reflexivity|].
  exists r0. split; [|repeat split].
  apply list_elem_of_In in Hr0. rewrite df_f_rows in Hr0.
  apply list_elem_of_filter in Hr0. tauto.
Qed.

Lemma existsb_app_r (name : str) (cols : list str) :
  existsb (str_eqb name) (cols ++ [name]) = true.
Proof.
  rewrite existsb_app. simpl.
  assert (str_eqb name name = true) as -> by (apply str_eqb_eq; reflexivity).
  rewrite orb_true_r. reflexivity.
Qed.

(** X5. Line 49 keeps the number of rows and every header label, has the
    label PromedioGeneral in the header afterwards (appended last when it was
    not there, left in place when it was), and is idempotent: run on its own
    result it changes nothing. *)
Theorem add_PromedioGeneral_idempotent (df : DataFrame) :
  len (add_PromedioGeneral df) = len df /\
  columns df `prefix_of` columns (add_PromedioGeneral df) /\
  u "PromedioGeneral" ∈ columns (add_PromedioGeneral df) /\
  (u "PromedioGeneral" ∈ columns df ->
   columns (add_PromedioGeneral df) = columns df) /\
  (u "PromedioGeneral" ∉ columns df ->
   columns (add_PromedioGeneral df) = columns df ++ [u "PromedioGeneral"]) /\
  add_PromedioGeneral (add_PromedioGeneral df) = add_PromedioGeneral df.
Proof.
  unfold add_PromedioGeneral, len. cbn [columns rows].
  split; [apply length_map|].
  destruct (existsb (str_eqb (u "PromedioGeneral")) (columns df)) eqn:E.
  - pose proof (proj1 (existsb_str_eqb _ _) E) as Hin.
    split; [reflexivity|]. split; [exact Hin|]. split; [reflexivity|].
    split; [tauto|].
    rewrite E. f_equal. rewrite List.map_map. apply List.map_ext. reflexivity.
  - assert (Hnotin : u "PromedioGeneral" ∉ columns df).
    { intros Hin. apply existsb_str_eqb in Hin. congruence. }
    split; [apply prefix_app_r; reflexivity|].
    split; [apply elem_of_app; right; apply list_elem_of_singleton; reflexivity|].
    split; [tauto|]. split; [reflexivity|].
    rewrite existsb_app_r. f_equal. rewrite List.map_map. apply List.map_ext. reflexivity.
Qed.

(** X5 on the scenario, whose sheet has no such column. *)
Lemma add_PromedioGeneral_idempotent_witness :
  columns (add_PromedioGeneral scenario) = columns scenario ++ [u "PromedioGeneral"].
Proof.
  exact (proj1 (proj2 (proj2 (proj2 (proj2 (add_PromedioGeneral_idempotent scenario)))))
           ltac:(intros H; apply list_elem_of_In in H; vm_compute in H;
                 intuition discriminate)).
Defined.

(** ** More on the eNPS score *)

Lemma compute_enps_counts (series : list num) :
  compute_enps series =
  if count_entries not_missing series =? 0 then 0%Q
  else (inject_Z (count_entries (equals 100) series
                  - count_entries (equals (-100)) series)
        / inject_Z (count_entries not_missing series) * 100)%Q.
Proof.
  unfold compute_enps. rewrite promotores_count, detractores_count, total_count.
  reflexivity.
Qed.

Lemma count_equals_dropna (v : Q) (series : list num) :
  count_entries (equals v) series
  = Z.of_nat (length (List.filter (fun q => Qeq_bool q v) (dropna series))).
Proof.
  unfold count_entries. f_equal.
  induction series as [|[q|] series IH]; simpl; [reflexivity| |exact IH].
  destruct (Qeq_bool q v); simpl; rewrite IH; reflexivity.
Qed.

Lemma count_not_missing_dropna (series : list num) :
  count_entries not_missing series = Z.of_nat (length (dropna series)).
Proof.
  unfold count_entries. f_equal.
  induction series as [|[q|] series IH]; simpl; [reflexivity| |exact IH].
  rewrite IH. reflexivity.
Qed.

Lemma filter_length_perm {A} (f : A -> bool) (l l' : list A) :
  l ≡ₚ l' -> length (List.filter f l) = length (List.filter f l').
Proof.
  induction 1 as [|x l l' _ IH|x y l|l l' l'' _ IH1 _ IH2]; simpl.
  - reflexivity.
  - destruct (f x); simpl; rewrite IH; reflexivity.
  - destruct (f x), (f y); reflexivity.
  - rewrite IH1. exact IH2.
Qed.

Lemma compute_enps_bounds (series : list num) :
  (-100 <= compute_enps series <= 100)%Q.
Proof.
  pose proof (count_partition series) as Hpart.
  pose proof (count_entries_nonneg (equals 100) series) as HP.
  pose proof (count_entries_nonneg (equals (-100)) series) as HD.
  pose proof (count_entries_nonneg other_value series) as HO.
  rewrite compute_enps_counts.
  destruct (Z.eqb_spec (count_entries not_missing series) 0) as [_|HT].
  - split; discriminate.
  - apply score_range; lia.
Qed.

(** X6. The KPI of line 65 is the score of the view's eNPS column for every
    view, with or without rows (the guard on the length changes no value),
    and lies in [-100, 100]. *)
Theorem enps_global_is_score (view : DataFrame) :
  enps_global view = compute_enps (List.map eNPS (rows view)) /\
  (-100 <= enps_global view <= 100)%Q.
Proof.
  assert (Heq : enps_global view = compute_enps (List.map eNPS (rows view))).
  { unfold enps_global, len. destruct (rows view); reflexivity. }
  split; [exact Heq|]. rewrite Heq. apply compute_enps_bounds.
Qed.

(** X7. The score depends only on the non-missing entries, and not on their
    order: two series whose non-missing entries are the same up to order
    have the same score; in particular missing entries can be dropped. *)
Theorem compute_enps_order_and_missing (series series' : list num) :
  (dropna series ≡ₚ dropna series' -> compute_enps series = compute_enps series') /\
  compute_enps series = compute_enps (List.map Some (dropna series)).
Proof.
  assert (Hperm : forall s s' : list num,
             dropna s ≡ₚ dropna s' -> compute_enps s = compute_enps s').
  { intros s s' H. rewrite !compute_enps_counts, !count_equals_dropna,
      !count_not_missing_dropna.
    rewrite (filter_length_perm _ _ _ H), (filter_length_perm _ _ _ H),
      (Permutation_length H). reflexivity. }
  split; [apply Hperm|]. apply Hperm.
  induction series as [|[q|] series IH]; simpl; [reflexivity| |exact IH].
  rewrite <- IH. reflexivity.
Qed.

(** X7 on the example series and a reordering of it with more gaps. *)
Lemma compute_enps_order_and_missing_witness :
  compute_enps [Some 100; Some 100; Some (-100); Some 0; None]%Q
  = compute_enps [None; Some 0; Some 100; None; Some 100; Some (-100)]%Q.
Proof.
  apply (proj1 (compute_enps_order_and_missing
                  [Some 100; Some 100; Some (-100); Some 0; None]%Q
                  [None; Some 0; Some 100; None; Some 100; Some (-100)]%Q)).
  exact (Permutation_sym (Permutation_cons_append [100; 100; -100]%Q 0%Q)).
Defined.

Lemma filter_length_all {A} (f : A -> bool) (l : list A) :
  length (List.filter f l) = length l <-> Forall (fun x => f x = true) l.
Proof.
  induction l as [|x l IH]; simpl; [split; [constructor | reflexivity]|].
  pose proof (List.filter_length_le f l) as Hle.
  destruct (f x) eqn:Hx; simpl.
  - rewrite Forall_cons, <- IH. split; [intros [= H]; tauto | intros [_ ->]; reflexivity].
  - rewrite Forall_cons. split; [lia | intros [H _]; congruence].
Qed.

(** The score is at an end of its range only when the counts say so. *)
Lemma score_extreme (p d t : Z) :
  0 <= p -> 0 <= d -> p + d <= t -> 0 < t ->
  ((inject_Z (p - d) / inject_Z t * 100 == 100)%Q <-> p = t) /\
  ((inject_Z (p - d) / inject_Z t * 100 == -100)%Q <-> d = t).
Proof.
  intros Hp Hd Hpd Ht.
  destruct t as [|t|t]; try lia.
  unfold Qeq, Qdiv, Qmult, Qinv, inject_Z; simpl.
  split; split; intros H; nia.
Qed.

(** X8. The score is 100 exactly when the series has a non-missing entry and
    every non-missing entry is 100, and -100 exactly when it has one and
    every one is -100. *)
Theorem compute_enps_extremes (series : list num) :
  ((compute_enps series == 100)%Q <->
   dropna series <> [] /\ Forall (fun q => (q == 100)%Q) (dropna series)) /\
  ((compute_enps series == -100)%Q <->
   dropna series <> [] /\ Forall (fun q => (q == -100)%Q) (dropna series)).
Proof.
  pose proof (count_partition series) as Hpart.
  pose proof (count_entries_nonneg (equals 100) series) as HP.
  pose proof (count_entries_nonneg (equals (-100)) series) as HD.
  pose proof (count_entries_nonneg other_value series) as HO.
  rewrite compute_enps_counts.
  assert (Hall : forall v,
             count_entries (equals v) series = count_entries not_missing series
             <-> Forall (fun q => (q == v)%Q) (dropna series)).
  { intros v. rewrite count_equals_dropna, count_not_missing_dropna, Nat2Z.inj_iff,
      filter_length_all.
    apply Forall_proper; [|reflexivity]. intros q. apply Qeq_bool_iff. }
  assert (Hnil : count_entries not_missing series = 0 <-> dropna series = []).
  { rewrite count_not_missing_dropna. destruct (dropna series); simpl; [tauto|].
    split; [lia | discriminate]. }
  destruct (Z.eqb_spec (count_entries not_missing series) 0) as [HT|HT].
  - split; (split; [discriminate | intros [Hne _]; tauto]).
  - destruct (score_extreme (count_entries (equals 100) series)
                (count_entries (equals (-100)) series)
                (count_entries not_missing series)) as [H100 Hm100]; try lia.
    rewrite H100, Hm100, <- !Hall. tauto.
Qed.

Lemma Qeq_bool_opp (q v : Q) : Qeq_bool (- q) v = Qeq_bool q (- v).
Proof.
  apply eq_true_iff_eq. rewrite !Qeq_bool_iff.
  split; intros H.
  - rewrite <- H. symmetry. apply Qopp_involutive.
  - rewrite H. apply Qopp_involutive.
Qed.

(** X9. Turning every promoter into a detractor and back (negating every
    entry) negates the score. *)
Theorem compute_enps_opposite (series : list num) :
  (compute_enps (List.map (option_map Qopp) series) == - compute_enps series)%Q.
Proof.
  assert (Hcount : forall v,
             count_entries (equals v) (List.map (option_map Qopp) series)
             = count_entries (equals (- v)) series).
  { intros v. unfold count_entries. f_equal.
    induction series as [|[q|] series IH]; simpl; [reflexivity| |exact IH].
    rewrite Qeq_bool_opp. destruct (Qeq_bool q (- v)); simpl; rewrite IH; reflexivity. }
  assert (Htotal : count_entries not_missing (List.map (option_map Qopp) series)
                   = count_entries not_missing series).
  { clear Hcount. unfold count_entries. f_equal.
    induction series as [|[q|] series IH]; simpl; [reflexivity| |exact IH].
    rewrite IH. reflexivity. }
  rewrite !compute_enps_counts, Htotal, (Hcount 100%Q), (Hcount (-100)%Q).
  change (- (100))%Q with (-100)%Q. change (- (-100))%Q with 100%Q.
  destruct (Z.eqb_spec (count_entries not_missing series) 0) as [_|HT]; [reflexivity|].
  set (P := count_entries (equals 100) series).
  set (D := count_entries (equals (-100)) series).
  destruct (count_entries not_missing series) as [|t|t]; [contradiction| |];
    unfold Qeq, Qdiv, Qmult, Qinv, Qopp, inject_Z; simpl; lia.
Qed.

(** ** Means and the range of the answers *)







Lemma mean_missing_iff (series : list num) :
  mean series = None <-> Forall (fun c => c = None) series.
Proof.
  split; [|apply mean_all_missing].
  unfold mean. intros Hmean.
  assert (Hnil : dropna series = []) by (destruct (dropna series); [reflexivity | discriminate]).
  clear Hmean. induction series as [|[q|] series IH]; simpl in Hnil.
  - constructor.
  - discriminate Hnil.
  - constructor; [reflexivity | exact (IH Hnil)].
Qed.

(** X11. In a view that has rows, the radar value of a dimension is missing
    exactly when every cell of that dimension is missing in the view; with a
    single answer in the column the value is a number. *)
Theorem radar_value_missing_iff (view : DataFrame) (i : nat) (col : Column) :
  radar_dims !! i = Some col ->
  rows view <> [] ->
  (vals view !! i = Some None <-> Forall (fun r => cell col r = None) (rows view)) /\
  ((exists r, r ∈ rows view /\ cell col r <> None) ->
   exists q, vals view !! i = Some (Some q)).
Proof.
  intros Hcol Hne.
  assert (Hval : vals view !! i = Some (mean (List.map (cell col) (rows view)))).
  { rewrite (vals_nonempty view Hne).
    change (List.map ?f radar_dims) with (f <$> radar_dims).
    rewrite list_lookup_fmap, Hcol. reflexivity. }
  assert (Hiff : mean (List.map (cell col) (rows view)) = None
                 <-> Forall (fun r => cell col r = None) (rows view)).
  { rewrite mean_missing_iff. apply Forall_map. }
  split.
  - rewrite <- Hiff. unfold num in *. split; intros H; congruence.
  - intros (r & Hr & Hcell).
    destruct (mean (List.map (cell col) (rows view))) as [q|] eqn:Hmean;
      [exists q; unfold num in *; congruence|].
    exfalso. apply Hcell. pose proof (proj1 Hiff eq_refl) as Hall.
    rewrite Forall_forall in Hall. exact (Hall r Hr).
Qed.

(** X11 on the view without a CorajeInnovar answer: Agilidad has a value. *)
Lemma radar_value_missing_iff_witness :
  exists q, vals unanswered_view !! 0%nat = Some (Some q).
Proof.
  refine (proj2 (radar_value_missing_iff unanswered_view 0
                   (mkColumn (u "Agilidad") Agilidad) eq_refl _) _).
  - discriminate.
  - eexists. split; [apply list_elem_of_here | discriminate].
Defined.

(** ** The Promedio General readout and the radar *)









(** ** The grouped frame behind the bar chart and the heatmap *)

Lemma groupby_keys (view : DataFrame) :
  List.map fst (groupby_Area_mean view)
  = sorted (unique (dropna (List.map Area (rows view)))).
Proof.
  unfold groupby_Area_mean. rewrite List.map_map. apply List.map_id.
Qed.

Lemma groupby_nil_iff (view : DataFrame) :
  groupby_Area_mean view = [] <-> Forall (fun r => Area r = None) (rows view).
Proof.
  destruct (sorted_unique_spec Area (rows view)) as (_ & _ & Hin).
  pose proof (groupby_keys view) as Hkeys.
  split.
  - intros Hnil. rewrite Hnil in Hkeys. simpl in Hkeys.
    apply Forall_forall. intros r Hr.
    destruct (Area r) as [x|] eqn:HA; [|reflexivity].
    exfalso. assert (Hx : x ∈ sorted (unique (dropna (List.map Area (rows view))))).
    { apply Hin. exists r. split; assumption. }
    rewrite <- Hkeys in Hx. apply elem_of_nil in Hx. exact Hx.
  - intros Hall.
    destruct (sorted (unique (dropna (List.map Area (rows view))))) as [|x keys] eqn:E.
    + destruct (groupby_Area_mean view); [reflexivity | discriminate Hkeys].
    + exfalso. destruct (proj1 (Hin x) (list_elem_of_here _ _)) as (r & Hr & HA).
      rewrite Forall_forall in Hall. rewrite (Hall r Hr) in HA. discriminate HA.
Qed.

Lemma melt_nil_iff (frame : list (str * list num)) : melt frame = [] <-> frame = [].
Proof.
  split; [|intros ->; reflexivity].
  destruct frame as [|[key means] frame]; [reflexivity | discriminate].
Qed.

(** X13. The bar chart and the heatmap are always built from the same
    grouped frame: the guard on the length at line 94 changes no value. *)
Theorem bars_df_is_hm_df (view : DataFrame) :
  bars_df view = hm_df view /\
  bars_fig view = Bar (melt (hm_df view)) /\
  (hm_df view <> [] ->
   heatmap view = plotly_chart (DensityHeatmap (melt (hm_df view)))).
Proof.
  assert (Heq : bars_df view = hm_df view).
  { unfold bars_df, hm_df, len. destruct (rows view) as [|r l] eqn:Hrows; [|reflexivity].
    symmetry. apply groupby_nil_iff. rewrite Hrows. constructor. }
  split; [exact Heq|]. split; [unfold bars_fig; rewrite Heq; reflexivity|].
  intros Hne. unfold heatmap. destruct (hm_df view); [congruence | reflexivity].
Qed.

(** X14. The heatmap gives way to the placeholder exactly when no row of the
    view has an Área (a view without rows, or one whose Área cells are all
    missing), and exactly then the bar chart has no bar. *)
Theorem heatmap_placeholder_iff (view : DataFrame) :
  (heatmap view = st_info heatmap_placeholder
   <-> Forall (fun r => Area r = None) (rows view)) /\
  (bars_fig view = Bar [] <-> Forall (fun r => Area r = None) (rows view)).
Proof.
  rewrite <- (groupby_nil_iff view). split.
  - unfold heatmap, hm_df. destruct (groupby_Area_mean view) as [|g frame].
    + tauto.
    + split; discriminate.
  - assert (Hbars : bars_df view = groupby_Area_mean view).
    { unfold bars_df, len. destruct (rows view) as [|r l] eqn:Hrows; [|reflexivity].
      symmetry. apply groupby_nil_iff. rewrite Hrows. constructor. }
    unfold bars_fig. rewrite Hbars, <- melt_nil_iff.
    split; [intros [= H]; exact H | intros ->; reflexivity].
Qed.

Lemma length_dropna {A} (series : list (option A)) :
  (length (dropna series) <= length series)%nat.
Proof.
  induction series as [|[x|] series IH]; simpl; lia.
Qed.

(** X15. The grouped frame has one row per distinct non-missing Área of the
    view, keys strictly ascending; the row of a key holds, dimension by
    dimension, the mean over the rows of that Área; there are never more
    groups than rows. *)
Theorem groupby_Area_mean_spec (view : DataFrame) :
  StronglySorted str_lt (List.map fst (groupby_Area_mean view)) /\
  (forall key, key ∈ List.map fst (groupby_Area_mean view)
               <-> exists r, r ∈ rows view /\ Area r = Some key) /\
  (forall key means,
     (key, means) ∈ groupby_Area_mean view ->
     means = List.map
               (fun col =>
                  mean (List.map (cell col)
                          (filter (fun r => Area r = Some key) (rows view))))
               radar_dims /\
     length means = 4%nat) /\
  (length (groupby_Area_mean view) <= len view)%nat.
Proof.
  destruct (sorted_unique_spec Area (rows view)) as (Hsorted & Hnd & Hin).
  rewrite groupby_keys.
  split; [exact Hsorted|]. split; [exact Hin|]. split.
  - intros key means Hg. unfold groupby_Area_mean in Hg.
    apply list_elem_of_In, in_map_iff in Hg as (k & Heq & _).
    pose proof (f_equal fst Heq) as Hk. pose proof (f_equal snd Heq) as Hm.
    cbn [fst snd] in Hk, Hm. subst key means.
    rewrite mask_select. split; [reflexivity|]. rewrite length_map. reflexivity.
  - rewrite <- (length_map fst), groupby_keys, (Permutation_length (sorted_perm _)).
    unfold len. rewrite <- (length_map Area (rows view)).
    etransitivity; [|apply length_dropna].
    apply submseteq_length, NoDup_submseteq.
    + apply (unique_from_spec []).
    + intros x Hx. apply (unique_from_spec []) in Hx. tauto.
Qed.

Lemma melt_length (frame : list (str * list num)) :
  length (melt frame) = (4 * length frame)%nat.
Proof.
  unfold melt, radar_dims. cbn [length List.seq List.combine List.flat_map].
  rewrite !length_app, !length_map. cbn [length]. unfold num. lia.
Qed.

(** X16. The bar chart has four bars for each Área present in the view, and
    every bar is labelled with such an Área and one of the four dimensions. *)
Theorem bars_fig_bars (view : DataFrame) :
  exists data,
    bars_fig view = Bar data /\
    length data = (4 * length (tail (areas view)))%nat /\
    (forall key dim v,
       (key, dim, v) ∈ data ->
       (exists r, r ∈ rows view /\ Area r = Some key) /\
       dim ∈ List.map label radar_dims).
Proof.
  assert (Hbars : bars_df view = groupby_Area_mean view).
  { unfold bars_df, len. destruct (rows view) as [|r l] eqn:Hrows; [|reflexivity].
    symmetry. apply groupby_nil_iff. rewrite Hrows. constructor. }
  exists (melt (groupby_Area_mean view)). unfold bars_fig. rewrite Hbars.
  split; [reflexivity|]. split.
  - rewrite melt_length. unfold areas. cbn [tail].
    rewrite <- groupby_keys, length_map. reflexivity.
  - intros key dim v Hin. unfold melt in Hin.
    apply list_elem_of_In, in_flat_map in Hin as ([i col] & Hcol & Hin).
    apply in_map_iff in Hin as ([k means] & Heq & Hg).
    injection Heq as Hk Hd _. subst k dim. split.
    + apply (sorted_unique_spec Area (rows view)).
      rewrite <- groupby_keys. apply list_elem_of_In, in_map_iff.
      exists (key, means). split; [reflexivity | exact Hg].
    + apply in_combine_r in Hcol. apply list_elem_of_In, in_map. exact Hcol.
Qed.





(** ** More on header normalization *)

Lemma lstrip_fixed (s : str) :
  (forall x, head s = Some x -> isspace x = false) -> lstrip s = s.
Proof.
  destruct s as [|c s]; [reflexivity|]. intros H. simpl.
  rewrite (H c eq_refl). reflexivity.
Qed.

Lemma head_rev_last {A} (l : list A) : head (rev l) = last l.
Proof. rewrite <- (rev_involutive l) at 2. symmetry. apply last_rev_head. Qed.

Lemma strip_fixed (s : str) :
  (forall x, head s = Some x -> isspace x = false) ->
  (forall x, last s = Some x -> isspace x = false) ->
  strip s = s.
Proof.
  intros Hhead Hlast. unfold strip, rstrip.
  rewrite (lstrip_fixed s Hhead), lstrip_fixed; [apply rev_involutive|].
  intros x. rewrite head_rev_last. apply Hlast.
Qed.

Lemma replace_space_fixed (s : str) :
  Forall (fun c => c <> 32%N) s -> replace_space s = s.
Proof.
  induction 1 as [|c s Hc _ IH]; simpl; [reflexivity|].
  destruct (N.eqb_spec c 32); [contradiction|]. rewrite IH. reflexivity.
Qed.

Lemma normalize_column_fixed (c : str) :
  normalize_column (normalize_column c) = normalize_column c.
Proof.
  destruct (strip_spec c) as (_ & Hhead & Hlast).
  rewrite (normalize_column_strip_replace (normalize_column c)).
  rewrite (normalize_column_strip_replace c).
  rewrite strip_fixed.
  - apply replace_space_fixed, replace_space_no_space.
  - rewrite replace_space_head by exact Hhead. exact Hhead.
  - rewrite replace_space_last by exact Hlast. exact Hlast.
Qed.

Lemma filter_app_all_false {A} (f : A -> bool) (w : list A) :
  forallb (fun x => negb (f x)) w = true -> List.filter f w = [].
Proof.
  induction w as [|x w IH]; simpl; [reflexivity|].
  intros [Hx Hw]%andb_true_iff. apply negb_true_iff in Hx. rewrite Hx. exact (IH Hw).
Qed.

Lemma forallb_isspace_negb (w : str) :
  forallb isspace w = true ->
  forallb (fun x => negb (negb (isspace x))) w = true.
Proof.
  induction w as [|x w IH]; simpl; [reflexivity|].
  intros [Hx Hw]%andb_true_iff. rewrite Hx, (IH Hw). reflexivity.
Qed.

Lemma filter_filter_implied {A} (f g : A -> bool) (l : list A) :
  (forall x, f x = true -> g x = true) ->
  List.filter f (List.filter g l) = List.filter f l.
Proof.
  intros Himp. induction l as [|x l IH]; simpl; [reflexivity|].
  destruct (g x) eqn:Hg; simpl.
  - rewrite IH. reflexivity.
  - destruct (f x) eqn:Hf; [rewrite (Himp x Hf) in Hg; discriminate | exact IH].
Qed.

Lemma filter_sublist_bool {A} (f : A -> bool) (l : list A) :
  List.filter f l `sublist_of` l.
Proof.
  induction l as [|x l IH]; simpl; [constructor|].
  destruct (f x); [apply sublist_skip | apply sublist_cons]; exact IH.
Qed.

(** X18. Normalizing a header twice gives what normalizing it once gives,
    and a header is left as it is exactly when it has no space and no
    whitespace at either end. *)
Theorem normalize_column_idempotent (c : str) :
  normalize_column (normalize_column c) = normalize_column c /\
  (normalize_column c = c <->
   Forall (fun x => x <> 32%N) c /\
   (forall x, head c = Some x -> isspace x = false) /\
   (forall x, last c = Some x -> isspace x = false)).
Proof.
  split; [apply normalize_column_fixed|].
  destruct (strip_spec c) as (_ & Hhead & Hlast).
  split.
  - intros Hfix. rewrite <- Hfix, (normalize_column_strip_replace c).
    split; [apply replace_space_no_space|]. split.
    + rewrite replace_space_head by exact Hhead. exact Hhead.
    + rewrite replace_space_last by exact Hlast. exact Hlast.
  - intros (Hns & Hh & Hl).
    rewrite normalize_column_strip_replace, (strip_fixed c Hh Hl).
    apply replace_space_fixed, Hns.
Qed.

(** X19. Normalization only deletes whitespace: the result is a subsequence
    of the header, and the characters that are not whitespace are all kept,
    in their order. *)
Theorem normalize_column_keeps_text (c : str) :
  normalize_column c `sublist_of` c /\
  List.filter (fun x => negb (isspace x)) (normalize_column c)
  = List.filter (fun x => negb (isspace x)) c /\
  (length (normalize_column c) <= length c)%nat.
Proof.
  destruct (strip_spec c) as ((w1 & w2 & Hc & Hw1 & Hw2) & _ & _).
  rewrite normalize_column_strip_replace, replace_space_filter.
  assert (Hsub : List.filter (fun x => negb (x =? 32)%N) (strip c) `sublist_of` c).
  { etransitivity; [apply filter_sublist_bool|].
    rewrite Hc at 2. apply sublist_inserts_l, sublist_inserts_r. reflexivity. }
  split; [exact Hsub|]. split; [|apply sublist_length, Hsub].
  rewrite filter_filter_implied.
  - rewrite Hc at 2. rewrite !List.filter_app.
    rewrite (filter_app_all_false _ w1) by (apply forallb_isspace_negb, Hw1).
    rewrite (filter_app_all_false _ w2) by (apply forallb_isspace_negb, Hw2).
    rewrite app_nil_r. reflexivity.
  - intros x Hx. destruct (N.eqb_spec x 32) as [->|_]; [discriminate Hx | reflexivity].
Qed.

(** ** Loading and the outcome of a run *)




(** ** The Área views partition the rows *)

Lemma sum_list_map_add {A} (f g : A -> nat) (l : list A) :
  sum_list (List.map (fun x => f x + g x)%nat l)
  = (sum_list (List.map f l) + sum_list (List.map g l))%nat.
Proof. induction l as [|x l IH]; simpl; [reflexivity|]. rewrite IH. lia. Qed.

Lemma sum_indicator (k0 : str) (ks : list str) :
  NoDup ks ->
  sum_list (List.map (fun k => if decide (Some k0 = Some k) then 1 else 0)%nat ks)
  = (if decide (k0 ∈ ks) then 1 else 0)%nat.
Proof.
  induction 1 as [|k ks Hnotin _ IH].
  - destruct (decide (k0 ∈ [])) as [H|_]; [|reflexivity].
    apply elem_of_nil in H. contradiction.
  - cbn [List.map sum_list]. rewrite IH.
    destruct (decide (Some k0 = Some k)) as [Heq|Hne],
             (decide (k0 ∈ ks)) as [Hin|Hnin],
             (decide (k0 ∈ k :: ks)) as [Hin'|Hnin'];
      try reflexivity; exfalso.
    + injection Heq as ->. contradiction.
    + injection Heq as ->. contradiction.
    + injection Heq as ->. apply Hnin', list_elem_of_here.
    + apply Hnin', list_elem_of_further, Hin.
    + apply elem_of_cons in Hin' as [->|Hin']; [congruence | contradiction].
Qed.

Lemma sum_list_zero {A} (l : list A) : sum_list (List.map (fun _ => 0%nat) l) = 0%nat.
Proof. induction l as [|x l IH]; simpl; [reflexivity | exact IH]. Qed.

(** Counting rows key by key, over distinct keys that cover the column,
    counts every row that has a key once. *)
Lemma count_by_key (key : Response -> option str) (ks : list str) (l : list Response) :
  NoDup ks ->
  (forall r k, r ∈ l -> key r = Some k -> k ∈ ks) ->
  sum_list (List.map (fun k => length (filter (fun r => key r = Some k) l)) ks)
  = length (filter (fun r => key r <> None) l).
Proof.
  intros Hnd. induction l as [|r l IH]; intros Hcover.
  - apply sum_list_zero.
  - assert (IH' := IH (fun r' k Hr' => Hcover r' k (list_elem_of_further _ _ _ Hr'))).
    transitivity
      (sum_list (List.map
         (fun k => (if decide (key r = Some k) then 1 else 0)
                   + length (filter (fun r => key r = Some k) l))%nat ks)).
    { f_equal. apply List.map_ext. intros k. rewrite filter_cons.
      destruct (decide (key r = Some k)); reflexivity. }
    rewrite sum_list_map_add, IH', filter_cons.
    destruct (key r) as [k0|] eqn:Hk.
    + rewrite (sum_indicator k0 ks Hnd).
      rewrite decide_True by (apply (Hcover r k0); [apply list_elem_of_here | exact Hk]).
      rewrite decide_True by discriminate. reflexivity.
    + rewrite decide_False by (intros H; apply H; reflexivity).
      rewrite (List.map_ext _ (fun _ : str => 0%nat)).
      * rewrite sum_list_zero. reflexivity.
      * intros k. destruct (decide _) as [H|_]; [discriminate H | reflexivity].
Qed.

Lemma filter_split_length {A} (P : A -> Prop) `{!forall x, Decision (P x)} (l : list A) :
  (length (filter P l) + length (filter (fun x => ~ P x) l) = length l)%nat.
Proof.
  induction l as [|x l IH]; [reflexivity|].
  rewrite !filter_cons. destruct (decide (P x)).
  - rewrite decide_False by tauto. simpl. lia.
  - rewrite decide_True by tauto. simpl. lia.
Qed.

(** X22. The single-Área views partition the rows that have an Área: when
    the sentinel's text is not itself an Área of the sheet, the sizes of the
    views of the offered Áreas, each chosen alone, and the number of rows
    with a missing Área add up to the number of rows. *)
Theorem area_views_partition (df : DataFrame) :
  u "(Todas)" ∉ tail (areas df) ->
  (sum_list (List.map (fun a => len (df_f df a (u "(Todos)"))) (tail (areas df)))
   + length (filter (fun r => Area r = None) (rows df)) = len df)%nat.
Proof.
  intros Hsentinel. unfold areas in *. cbn [tail] in *.
  destruct (sorted_unique_spec Area (rows df)) as (_ & Hnd & Hin).
  set (keys := sorted (unique (dropna (List.map Area (rows df))))) in *.
  assert (Hviews :
    List.map (fun a => len (df_f df a (u "(Todos)"))) keys
    = List.map (fun a => length (filter (fun r => Area r = Some a) (rows df))) keys).
  { apply List.map_ext_in. intros a Ha. unfold len. rewrite df_f_area_only; [reflexivity|].
    intros ->. apply Hsentinel, list_elem_of_In, Ha. }
  rewrite Hviews, (count_by_key Area keys (rows df) Hnd).
  - unfold len. rewrite <- (filter_split_length (fun r => Area r <> None) (rows df)).
    f_equal. f_equal. apply list_filter_iff. intros r.
    destruct (Area r); split; intros H; try congruence; try tauto.
    exfalso. apply H. discriminate.
  - intros r k Hr Hk. apply Hin. exists r. split; assumption.
Qed.

(** X22 on the scenario: two rows of Área A and one of Área B. *)
Lemma area_views_partition_witness :
  (sum_list (List.map (fun a => len (df_f scenario a (u "(Todos)")))
               (tail (areas scenario)))
   + length (filter (fun r => Area r = None) (rows scenario)) = len scenario)%nat.
Proof.
  apply (area_views_partition scenario).
  intros H. apply list_elem_of_In in H. vm_compute in H. intuition discriminate.
Defined.

(** ** One more answer *)

Lemma count_entries_cons (test : num -> bool) (c : num) (series : list num) :
  count_entries test (c :: series)
  = (if test c then 1 else 0) + count_entries test series.
Proof.
  unfold count_entries. simpl. destruct (test c); simpl length; lia.
Qed.

(** The score for the counts, when there is a non-missing entry. *)
Lemma score_step (p d t p' d' : Z) :
  0 <= p -> 0 <= d -> p + d <= t -> 0 < t ->
  p' - d' <= 1 -> -1 <= p' - d' ->
  (p' - d' = 1 ->
   (inject_Z (p - d) / inject_Z t * 100
    <= inject_Z (p + p' - (d + d')) / inject_Z (t + 1) * 100)%Q) /\
  (p' - d' = -1 ->
   (inject_Z (p + p' - (d + d')) / inject_Z (t + 1) * 100
    <= inject_Z (p - d) / inject_Z t * 100)%Q) /\
  (p' - d' = 0 ->
   (0 <= p - d ->
    (0 <= inject_Z (p + p' - (d + d')) / inject_Z (t + 1) * 100
     <= inject_Z (p - d) / inject_Z t * 100)%Q) /\
   (p - d <= 0 ->
    (inject_Z (p - d) / inject_Z t * 100
     <= inject_Z (p + p' - (d + d')) / inject_Z (t + 1) * 100 <= 0)%Q)).
Proof.
  intros Hp Hd Hpd Ht Hup Hlo.
  destruct t as [|t|t]; try lia.
  replace (Z.pos t + 1) with (Z.pos (t + 1)) by lia.
  unfold Qle, Qdiv, Qmult, Qinv, inject_Z; simpl.
  repeat split; intros; nia.
Qed.

(** The score after one more non-missing entry that adds [p'] promoters and
    [d'] detractors, in terms of the counts before. *)
Lemma compute_enps_cons_counts (c : num) (series : list num) (p' d' : Z) :
  not_missing c = true ->
  (if equals 100 c then 1 else 0) = p' ->
  (if equals (-100) c then 1 else 0) = d' ->
  compute_enps (c :: series)
  = (inject_Z (count_entries (equals 100) series + p'
               - (count_entries (equals (-100)) series + d'))
     / inject_Z (count_entries not_missing series + 1) * 100)%Q.
Proof.
  intros Hc Hp Hd.
  pose proof (count_entries_nonneg not_missing series) as HT.
  rewrite compute_enps_counts, !count_entries_cons, Hc, Hp, Hd.
  destruct (Z.eqb_spec (1 + count_entries not_missing series) 0) as [H0|_]; [lia|].
  replace (1 + count_entries not_missing series)
    with (count_entries not_missing series + 1) by lia.
  replace (p' + count_entries (equals 100) series
           - (d' + count_entries (equals (-100)) series))
    with (count_entries (equals 100) series + p'
          - (count_entries (equals (-100)) series + d')) by lia.
  reflexivity.
Qed.

(** X23. One more answer moves the score the way it should: a promoter never
    lowers it, a detractor never raises it, and any other non-missing answer
    (a passive) pulls it toward 0 without changing its sign. *)
Theorem compute_enps_one_more (series : list num) :
  (compute_enps series <= compute_enps (Some 100 :: series))%Q /\
  (compute_enps (Some (-100) :: series) <= compute_enps series)%Q /\
  (forall q : Q,
     ~ (q == 100)%Q -> ~ (q == -100)%Q ->
     ((0 <= compute_enps series)%Q ->
      (0 <= compute_enps (Some q :: series) <= compute_enps series)%Q) /\
     ((compute_enps series <= 0)%Q ->
      (compute_enps series <= compute_enps (Some q :: series) <= 0)%Q)).
Proof.
  pose proof (count_partition series) as Hpart.
  pose proof (count_entries_nonneg (equals 100) series) as HP.
  pose proof (count_entries_nonneg (equals (-100)) series) as HD.
  pose proof (count_entries_nonneg other_value series) as HO.
  pose proof (compute_enps_cons_counts (Some 100%Q) series 1 0 eq_refl eq_refl eq_refl)
    as Hpro.
  pose proof (compute_enps_cons_counts (Some (-100)%Q) series 0 1 eq_refl eq_refl eq_refl)
    as Hdet.
  unfold num in Hpro, Hdet. rewrite Hpro, Hdet. clear Hpro Hdet.
  assert (Hq : forall q : Q, ~ (q == 100)%Q -> ~ (q == -100)%Q ->
                 compute_enps (Some q :: series)
                 = (inject_Z (count_entries (equals 100) series + 0
                              - (count_entries (equals (-100)) series + 0))
                    / inject_Z (count_entries not_missing series + 1) * 100)%Q).
  { intros q H100 Hm100. apply compute_enps_cons_counts; [reflexivity| |]; simpl.
    - destruct (Qeq_bool q 100) eqn:E; [apply Qeq_bool_iff in E; contradiction | reflexivity].
    - destruct (Qeq_bool q (-100)) eqn:E; [apply Qeq_bool_iff in E; contradiction | reflexivity]. }
  rewrite compute_enps_counts.
  remember (count_entries (equals 100) series) as P eqn:EP in *.
  remember (count_entries (equals (-100)) series) as D eqn:ED in *.
  remember (count_entries not_missing series) as T eqn:ET in *.
  clear EP ED ET.
  destruct (Z.eqb_spec T 0) as [HT0|HT0].
  - assert (P = 0) by lia. assert (D = 0) by lia. clear Hpart HO. subst P D T.
    split; [vm_compute; discriminate|]. split; [vm_compute; discriminate|].
    intros q H100 Hm100. rewrite (Hq q H100 Hm100).
    split; intros _; split; vm_compute; discriminate.
  - destruct (score_step P D T 1 0) as (Hup & _ & _); try lia.
    destruct (score_step P D T 0 1) as (_ & Hdown & _); try lia.
    destruct (score_step P D T 0 0) as (_ & _ & Hsame); try lia.
    split; [apply Hup; reflexivity|]. split; [apply Hdown; reflexivity|].
    intros q H100 Hm100. rewrite (Hq q H100 Hm100).
    destruct (Hsame eq_refl) as [Hpos Hneg].
    assert (Hsign : forall z, (0 <= inject_Z z / inject_Z T * 100)%Q <-> 0 <= z).
    { intros z. destruct T as [|t|t]; try lia.
      unfold Qle, Qdiv, Qmult, Qinv, inject_Z; simpl. split; intros; nia. }
    assert (Hsign' : forall z, (inject_Z z / inject_Z T * 100 <= 0)%Q <-> z <= 0).
    { intros z. destruct T as [|t|t]; try lia.
      unfold Qle, Qdiv, Qmult, Qinv, inject_Z; simpl. split; intros; nia. }
    split.
    + intros H. apply Hpos. apply Hsign. exact H.
    + intros H. apply Hneg. apply Hsign'. exact H.
Qed.
